(** * LiveKitAgent: the tool functions and follow-up scheduling of the two
    voice agents, embedded from [AIAssistedCustomerHelpDesk.py] and
    [WebRTCDemooAgent.py].

  The two programs are Python coroutines that talk to external HTTP
  services through the [requests] library.  The embedding keeps the
  source's control flow and makes its effects explicit:

  - a tool is a computation in the monad [io]: it reads a [world] (the
    process environment and the behaviour of the network) and yields an
    [outcome] (a returned value, a raised exception, or a call that never
    comes back) together with the list of HTTP requests it issued;
  - a Python [str] is a [string]; a value decoded by [response.json()] is a
    [json] tree, objects being association lists in insertion order;
  - [try ... except requests.RequestException] is [try_except], which
    handles exactly the exceptions of that class;
  - console output ([print]) is not part of the model.

  What belongs to CPython or to [requests] rather than to the repository
  ([re.match], [dict.get], subscripting, [in], [raise_for_status],
  [response.json], the default [timeout=None]) is written out once, in
  [Regex], [Py] and [Requests], following the documented behaviour of
  Python 3.12 and requests 2.27 or later.

  The model of [requests] covers the calls that are sent: a call ends
  with an answer, with a [RequestException], or never.  A call that
  [requests] refuses with another exception before sending (a header
  or URL it cannot encode), and a body on which [response.json()]
  fails outside [RequestException] (JSON nested too deeply to decode),
  are outside its range: the statements below are about calls that
  are sent and bodies that [response.json()] decodes or rejects with
  its own error. *)

From Stdlib Require Import String Ascii List ZArith Bool Lia SpecFloat.
From Stdlib Require Import Permutation DecimalString.
Import ListNotations.
Open Scope string_scope.
Open Scope list_scope.

Set Implicit Arguments.

(* ================================================================== *)
(** * Regular expressions, as used by [re.match]                       *)
(* ================================================================== *)

Module Regex.

(** The fragment of Python's pattern language the source uses: literal
    characters, negated sets such as [[^@]], concatenation and [+]. *)
Inductive regex : Type :=
| Void : regex                         (* matches nothing *)
| Eps : regex                          (* matches the empty string *)
| Lit : ascii -> regex                 (* a literal character, e.g. [@], [\.] *)
| NotSet : list ascii -> regex         (* [[^...]] *)
| Cat : regex -> regex -> regex
| Alt : regex -> regex -> regex
| Star : regex -> regex.

(** [r+] *)
Definition Plus (r : regex) : regex := Cat r (Star r).

Definition in_set (c : ascii) (cs : list ascii) : bool :=
  existsb (Ascii.eqb c) cs.

Fixpoint nullable (r : regex) : bool :=
  match r with
  | Void => false
  | Eps => true
  | Lit _ => false
  | NotSet _ => false
  | Cat r1 r2 => nullable r1 && nullable r2
  | Alt r1 r2 => nullable r1 || nullable r2
  | Star _ => true
  end.

(** The residual of [r] after reading the character [c]. *)
Fixpoint deriv (c : ascii) (r : regex) : regex :=
  match r with
  | Void => Void
  | Eps => Void
  | Lit d => if Ascii.eqb c d then Eps else Void
  | NotSet cs => if in_set c cs then Void else Eps
  | Cat r1 r2 =>
      if nullable r1
      then Alt (Cat (deriv c r1) r2) (deriv c r2)
      else Cat (deriv c r1) r2
  | Alt r1 r2 => Alt (deriv c r1) (deriv c r2)
  | Star r1 => Cat (deriv c r1) (Star r1)
  end.

(** Does some prefix of [s] (possibly empty, possibly all of [s]) match
    [r]?  This is when [re.match(r, s)] returns a match object: the
    pattern is anchored at the start of the string and not at its end. *)
Fixpoint prefix_match (r : regex) (s : list ascii) : bool :=
  nullable r ||
  match s with
  | [] => false
  | c :: s' => prefix_match (deriv c r) s'
  end.

(** Does the whole of [s] match [r]?  ([re.fullmatch]; used only to state
    what the pattern describes.) *)
Fixpoint full_match (r : regex) (s : list ascii) : bool :=
  match s with
  | [] => nullable r
  | c :: s' => full_match (deriv c r) s'
  end.

(** Truth value of [re.match(pattern, s)]. *)
Definition re_match (pattern : regex) (s : string) : bool :=
  prefix_match pattern (list_ascii_of_string s).

(** The language of a pattern. *)
Inductive matches : regex -> list ascii -> Prop :=
| m_eps : matches Eps []
| m_lit : forall c, matches (Lit c) [c]
| m_notset : forall cs c, in_set c cs = false -> matches (NotSet cs) [c]
| m_cat : forall r1 r2 s1 s2,
    matches r1 s1 -> matches r2 s2 -> matches (Cat r1 r2) (s1 ++ s2)
| m_alt_l : forall r1 r2 s, matches r1 s -> matches (Alt r1 r2) s
| m_alt_r : forall r1 r2 s, matches r2 s -> matches (Alt r1 r2) s
| m_star_nil : forall r, matches (Star r) []
| m_star_app : forall r s1 s2,
    matches r s1 -> matches (Star r) s2 -> matches (Star r) (s1 ++ s2).

End Regex.

(* ================================================================== *)
(** * Python values and the operations the tools apply to them          *)
(* ================================================================== *)

Module Py.

(** A value produced by [json.loads]: [None], [bool], [int], [float],
    [str], [list] or [dict] (keys in insertion order). *)
#[local] Unset Elimination Schemes.
Inductive json : Type :=
| JNull : json
| JBool : bool -> json
| JInt : Z -> json
| JFloat : spec_float -> json
| JString : string -> json
| JArray : list json -> json
| JObject : list (string * json) -> json.
#[local] Set Elimination Schemes.

(** Why a call into [requests] failed; every one of these is raised as
    a subclass of [requests.RequestException]. *)
Inductive request_error : Type :=
| HTTPError (status : Z)      (* raise_for_status on a 4xx/5xx answer *)
| ConnectionError             (* no answer: DNS, refused, invalid URL, ... *)
| Timeout                     (* no answer within the timeout given *)
| JSONDecodeError.            (* response.json() on a body that is not JSON *)

Inductive exn : Type :=
| RequestException (e : request_error)
| KeyError (key : string)
| TypeError
| AttributeError.

(** How a call ends. *)
Inductive outcome (A : Type) : Type :=
| Returns (a : A)
| Raises (e : exn)
| Hangs.                      (* the awaited answer never comes *)
Arguments Raises {A} e.
Arguments Hangs {A}.

Definition obind {A B} (o : outcome A) (k : A -> outcome B) : outcome B :=
  match o with
  | Returns a => k a
  | Raises e => Raises e
  | Hangs => Hangs
  end.

(** [d[key]] / [d.get(key)] on a dict. *)
Fixpoint lookup {V} (key : string) (d : list (string * V)) : option V :=
  match d with
  | [] => None
  | (k, v) :: d' => if String.eqb key k then Some v else lookup key d'
  end.

(** [v[key]] for a [str] key: only a dict can be subscripted by a
    string, and a missing key is a [KeyError]. *)
Definition getitem (v : json) (key : string) : outcome json :=
  match v with
  | JObject d =>
      match lookup key d with
      | Some x => Returns x
      | None => Raises (KeyError key)
      end
  | _ => Raises TypeError
  end.

(** [v.get(key, default)]: a method of dicts only. *)
Definition get (v : json) (key : string) (default : json) : outcome json :=
  match v with
  | JObject d =>
      match lookup key d with
      | Some x => Returns x
      | None => Returns default
      end
  | _ => Raises AttributeError
  end.

(** The items a [for] loop draws from [v]: the elements of a list, the
    keys of a dict, the characters of a string; other values are not
    iterable. *)
Definition iter (v : json) : outcome (list json) :=
  match v with
  | JArray l => Returns l
  | JObject d => Returns (map (fun kv => JString (fst kv)) d)
  | JString s =>
      Returns (map (fun c => JString (String c EmptyString))
                   (list_ascii_of_string s))
  | _ => Raises TypeError
  end.

(** [needle == v] for a [str] needle. *)
Definition str_eq (needle : string) (v : json) : bool :=
  match v with
  | JString s => String.eqb needle s
  | _ => false
  end.

Fixpoint is_prefix (p s : string) : bool :=
  match p, s with
  | EmptyString, _ => true
  | String a p', String b s' => Ascii.eqb a b && is_prefix p' s'
  | String _ _, EmptyString => false
  end.

(** [needle in s] for two strings. *)
Fixpoint is_substring (needle s : string) : bool :=
  is_prefix needle s ||
  match s with
  | EmptyString => false
  | String _ s' => is_substring needle s'
  end.

(** [needle in v] for a [str] needle: membership in a list, key
    membership in a dict, substring test on a string. *)
Definition contains (needle : string) (v : json) : outcome bool :=
  match v with
  | JArray l => Returns (existsb (str_eq needle) l)
  | JObject d => Returns (existsb (fun kv => String.eqb needle (fst kv)) d)
  | JString s => Returns (is_substring needle s)
  | _ => Raises TypeError
  end.

(** [f"{x}"] where [x] is the result of [os.getenv]. *)
Definition fmt_getenv (x : option string) : string :=
  match x with
  | Some s => s
  | None => "None"
  end.

(** Truth value of [d.get(key)] for a dict of strings: [None] and the
    empty string are false. *)
Definition truthy (x : option string) : bool :=
  match x with
  | Some EmptyString => false
  | Some _ => true
  | None => false
  end.

End Py.

(* ================================================================== *)
(** * The [requests] library and the [io] monad                         *)
(* ================================================================== *)

Module Requests.
Import Py.

Inductive http_method : Type := GET | POST.

(** One call of [requests.get] / [requests.post], with the keyword
    arguments the caller gave. *)
Record request : Type := mkRequest {
  method : http_method;
  url : string;
  headers : list (string * string);
  json_body : option json;           (* the [json=] argument *)
  timeout : option nat               (* the [timeout=] argument, seconds *)
}.

(** The final response; [decoded] is what [response.json()] yields,
    [None] when the body is not a JSON document. *)
Record response : Type := mkResponse {
  status_code : Z;
  decoded : option json
}.

(** What the outside world does with a request. *)
Inductive reply : Type :=
| Answers (r : response)
| Fails                              (* connection error, invalid URL, ... *)
| Silent.                            (* the server never answers *)

Record world : Type := mkWorld {
  getenv : string -> option string;  (* os.getenv *)
  network : request -> reply
}.

(** A computation: outcome and the requests issued, in order. *)
Definition io (A : Type) : Type := world -> outcome A * list request.

Definition ret {A} (a : A) : io A := fun _ => (Returns a, []).

Definition raise {A} (e : exn) : io A := fun _ => (Raises e, []).

Definition lift {A} (o : outcome A) : io A := fun _ => (o, []).

Definition bind {A B} (m : io A) (k : A -> io B) : io B :=
  fun w =>
    match m w with
    | (Returns a, t) => let (o, t') := k a w in (o, t ++ t')
    | (Raises e, t) => (Raises e, t)
    | (Hangs, t) => (Hangs, t)
    end.

(** [try: body  except requests.RequestException as e: handler]. *)
Definition try_except {A} (body : io A) (handler : request_error -> io A)
  : io A :=
  fun w =>
    match body w with
    | (Raises (RequestException e), t) =>
        let (o, t') := handler e w in (o, t ++ t')
    | other => other
    end.

Definition os_getenv (name : string) : io (option string) :=
  fun w => (Returns (getenv w name), []).

(** Sending a request.  Without a timeout, [requests] waits for the
    answer for as long as it takes. *)
Definition send (req : request) : io response :=
  fun w =>
    (match network w req with
     | Answers r => Returns r
     | Fails => Raises (RequestException ConnectionError)
     | Silent =>
         match timeout req with
         | Some _ => Raises (RequestException Timeout)
         | None => Hangs
         end
     end, [req]).

(** [requests.post(url, json=..., headers=..., timeout=...)]; the
    library's default for [timeout] is [None]. *)
Definition requests_post (u : string) (body : json)
           (hs : list (string * string)) (tmo : option nat) : io response :=
  send (mkRequest POST u hs (Some body) tmo).

(** [requests.get(url, headers=..., timeout=...)]. *)
Definition requests_get (u : string) (hs : list (string * string))
           (tmo : option nat) : io response :=
  send (mkRequest GET u hs None tmo).

(** The status codes for which [raise_for_status] raises: 400..599. *)
Definition is_error_status (r : response) : bool :=
  ((400 <=? status_code r) && (status_code r <? 600))%Z.

(** [response.raise_for_status()]. *)
Definition raise_for_status (r : response) : io unit :=
  if is_error_status r
  then raise (RequestException (HTTPError (status_code r)))
  else ret tt.

(** [response.json()]. *)
Definition response_json (r : response) : io json :=
  match decoded r with
  | Some v => ret v
  | None => raise (RequestException JSONDecodeError)
  end.

Definition is_2xx (r : response) : Prop :=
  (200 <= status_code r < 300)%Z.

(** An outcome that [except requests.RequestException] lets through. *)
Definition passes {A} (o : outcome A) : Prop :=
  forall e, o <> Raises (RequestException e).

End Requests.

Declare Scope io_scope.
Delimit Scope io_scope with io.
Notation "x <- m ;; k" := (Requests.bind m (fun x => k))
(at level 61, m at next level, right associativity) : io_scope.
Notation "m ;;; k" := (Requests.bind m (fun _ => k))
(at level 61, right associativity) : io_scope.

(* ================================================================== *)
(** * Calling a tool with keyword arguments                             *)
(* ================================================================== *)

Module Call.
Import Py Requests.

(** The arguments of a tool call, as the function-calling layer hands
    them over: a dict from parameter names to strings (every parameter of
    every tool is annotated [str]). *)
Definition arguments_t : Type := list (string * string).

Definition is_param (params : list string) (name : string) : bool :=
  existsb (String.eqb name) params.

(** The values of [params], in order, when each one is present. *)
Fixpoint bind_params (params : list string) (arguments : arguments_t)
  : option (list string) :=
  match params with
  | [] => Some []
  | p :: ps =>
      match lookup p arguments, bind_params ps arguments with
      | Some v, Some vs => Some (v :: vs)
      | _, _ => None
      end
  end.

(** The Python call [f( **arguments)] for a function [f] whose
    parameters [params] all lack a default: an unexpected keyword or a
    missing parameter is a [TypeError] raised by the call itself, before
    the body of [f] runs.  This is the call of the coroutine function
    taken by itself; a function-calling layer placed before it (LiveKit,
    outside the repository) may turn the request down earlier, with an
    error of its own, or drop keys the tool does not declare. *)
Definition keyword_call {A} (params : list string)
           (body : list string -> io A) (arguments : arguments_t) : io A :=
  if existsb (fun kv => negb (is_param params (fst kv))) arguments
  then raise TypeError
  else match bind_params params arguments with
       | Some vs => body vs
       | None => raise TypeError
       end.

End Call.

(* ================================================================== *)
(** * AIAssistedCustomerHelpDesk.py                                     *)
(* ================================================================== *)

Module AIAssistedCustomerHelpDesk.
Import Py Requests Call.
Local Open Scope string_scope.
Local Open Scope io_scope.

Definition msg_candidate_saved (candidate_id : string) : string :=
  "Candidate details saved with ID: " ++ candidate_id ++ ".".

Definition msg_candidate_failed : string :=
  "Failed to save candidate details. Please try again.".

Definition msg_interview_scheduled (slot : string) : string :=
  "Interview scheduled successfully for " ++ slot ++ ".".

Definition msg_interview_failed : string :=
  "Failed to schedule the interview. Please try again.".

Section InterviewAssistantFunctions.

(** [str(x)] for a decoded JSON value [x], as an f-string applies it.
    Only its value on strings matters below ([str(s) = s]). *)
Variable str : json -> string.

Definition save_candidate_details (email name : string) : io string :=
  api_token <- os_getenv "API_TOKEN" ;;
  endpoint <- os_getenv "CRM_CANDIDATE_ENDPOINT" ;;
  let api_url := fmt_getenv endpoint in
  let headers := [("Authorization", "Bearer " ++ fmt_getenv api_token);
                  ("Content-Type", "application/json")] in
  let data := JObject [("email", JString email);
                       ("name", JString name);
                       ("tags", JArray [JString "new_candidate"])] in
  try_except
    (response <- requests_post api_url data headers None ;;
     raise_for_status response ;;;
     body <- response_json response ;;
     candidate <- lift (getitem body "candidate") ;;
     candidate_id <- lift (getitem candidate "id") ;;
     ret (msg_candidate_saved (str candidate_id)))
    (fun _ => ret msg_candidate_failed).

Definition ask_hr_questions (experience skills previous_companies : string)
  : io string :=
  ret "HR questions answered successfully.".

Definition schedule_interview (email slot : string) : io string :=
  api_token <- os_getenv "API_TOKEN" ;;
  endpoint <- os_getenv "INTERVIEW_SLOTS_ENDPOINT" ;;
  let api_url := fmt_getenv endpoint in
  let headers := [("Authorization", "Bearer " ++ fmt_getenv api_token);
                  ("Content-Type", "application/json")] in
  let data := JObject [("email", JString email); ("slot", JString slot)] in
  try_except
    (response <- requests_post api_url data headers None ;;
     raise_for_status response ;;;
     ret (msg_interview_scheduled slot))
    (fun _ => ret msg_interview_failed).

(** The three tools as the function-calling layer invokes them. *)
Definition call_save_candidate_details : arguments_t -> io string :=
  keyword_call ["email"; "name"]
    (fun vs => match vs with
               | [email; name] => save_candidate_details email name
               | _ => raise TypeError
               end).

Definition call_ask_hr_questions : arguments_t -> io string :=
  keyword_call ["experience"; "skills"; "previous_companies"]
    (fun vs => match vs with
               | [e; s; p] => ask_hr_questions e s p
               | _ => raise TypeError
               end).

Definition call_schedule_interview : arguments_t -> io string :=
  keyword_call ["email"; "slot"]
    (fun vs => match vs with
               | [email; slot] => schedule_interview email slot
               | _ => raise TypeError
               end).

End InterviewAssistantFunctions.

(** What [save_candidate_details] makes of a decoded body: the two
    subscripts and the message. *)
Definition candidate_reply (str : json -> string) (body : json)
  : outcome string :=
  obind (getitem body "candidate")
    (fun candidate =>
       obind (getitem candidate "id")
         (fun candidate_id =>
            Returns (msg_candidate_saved (str candidate_id)))).

(** The request [save_candidate_details] sends. *)
Definition candidate_request (w : world) (email name : string) : request :=
  mkRequest POST (fmt_getenv (getenv w "CRM_CANDIDATE_ENDPOINT"))
    [("Authorization", "Bearer " ++ fmt_getenv (getenv w "API_TOKEN"));
     ("Content-Type", "application/json")]
    (Some (JObject [("email", JString email);
                    ("name", JString name);
                    ("tags", JArray [JString "new_candidate"])]))
    None.

(** The request [schedule_interview] sends. *)
Definition interview_request (w : world) (email slot : string) : request :=
  mkRequest POST (fmt_getenv (getenv w "INTERVIEW_SLOTS_ENDPOINT"))
    [("Authorization", "Bearer " ++ fmt_getenv (getenv w "API_TOKEN"));
     ("Content-Type", "application/json")]
    (Some (JObject [("email", JString email); ("slot", JString slot)]))
    None.

End AIAssistedCustomerHelpDesk.

(* ================================================================== *)
(** * WebRTCDemooAgent.py: the tools                                    *)
(* ================================================================== *)

Module WebRTCDemooAgent.
Import Regex Py Requests Call.
Local Open Scope string_scope.
Local Open Scope io_scope.

(** [r"[^@]+@[^@]+\.[^@]+"] *)
Definition email_pattern : regex :=
  Cat (Plus (NotSet ["@"%char]))
      (Cat (Lit "@"%char)
           (Cat (Plus (NotSet ["@"%char]))
                (Cat (Lit "."%char)
                     (Plus (NotSet ["@"%char]))))).

Definition msg_email_incorrect : string :=
  "The email address seems incorrect. Please provide a valid one.".

Definition msg_booking_sent (email : string) : string :=
  "Appointment booking link sent to " ++ email ++ ". Please check your email.".

Definition msg_booking_error : string :=
  "There was an error booking your appointment. Please try again later.".

Definition book_appointment (email name : string) : io string :=
  if negb (re_match email_pattern email)
  then ret msg_email_incorrect
  else
    try_except
      (hook <- os_getenv "WEBHOOK_URL" ;;
       let webhook_url := fmt_getenv hook in
       let headers := [("Content-Type", "application/json")] in
       let data := JObject [("email", JString email);
                            ("name", JString name)] in
       response <- requests_post webhook_url data headers None ;;
       raise_for_status response ;;;
       ret (msg_booking_sent email))
      (fun _ => ret msg_booking_error).

Definition booked_tag : string := "livekit_appointment_booked".

Definition msg_booked : string :=
  "The user has successfully booked the appointment.".

Definition msg_not_booked : string :=
  "The user has not yet booked an appointment. Please offer him help".

Definition msg_status_error : string :=
  "Error checking the appointment status.".

(** The body of [for contact in ...], over the items still to visit. *)
Fixpoint scan_contacts (contacts : list json) : outcome string :=
  match contacts with
  | [] => Returns msg_not_booked
  | contact :: rest =>
      obind (get contact "tags" (JArray []))
        (fun tags =>
           obind (contains booked_tag tags)
             (fun found =>
                if found then Returns msg_booked else scan_contacts rest))
  end.

Definition check_appointment_status (email : string) : io string :=
  api_token <- os_getenv "API_TOKEN" ;;
  try_except
    (endpoint <- os_getenv "CRM_CONTACT_LOOKUP_ENDPOINT" ;;
     let api_url := fmt_getenv endpoint ++ "?email=" ++ email in
     let headers := [("Authorization", "Bearer " ++ fmt_getenv api_token);
                     ("Content-Type", "application/json")] in
     response <- requests_get api_url headers None ;;
     raise_for_status response ;;;
     data <- response_json response ;;
     contacts <- lift (get data "contacts" (JArray [])) ;;
     items <- lift (iter contacts) ;;
     lift (scan_contacts items))
    (fun _ => ret msg_status_error).

(** What [check_appointment_status] makes of a decoded body: the
    [for] loop over [data.get('contacts', [])]. *)
Definition classify (data : json) : outcome string :=
  obind (get data "contacts" (JArray []))
    (fun contacts => obind (iter contacts) scan_contacts).

(** [book_appointment] as the function-calling layer invokes it. *)
Definition call_book_appointment : arguments_t -> io string :=
  keyword_call ["email"; "name"]
    (fun vs => match vs with
               | [email; name] => book_appointment email name
               | _ => raise TypeError
               end).

(** The request [book_appointment] sends. *)
Definition webhook_request (w : world) (email name : string) : request :=
  mkRequest POST (fmt_getenv (getenv w "WEBHOOK_URL"))
    [("Content-Type", "application/json")]
    (Some (JObject [("email", JString email); ("name", JString name)]))
    None.

(** The request [check_appointment_status] sends. *)
Definition lookup_request (w : world) (email : string) : request :=
  mkRequest GET
    (fmt_getenv (getenv w "CRM_CONTACT_LOOKUP_ENDPOINT") ++ "?email=" ++ email)
    [("Authorization", "Bearer " ++ fmt_getenv (getenv w "API_TOKEN"));
     ("Content-Type", "application/json")]
    None None.

(** ** [entrypoint]: chat context, event handlers and follow-ups *)

Record ChatMessage : Type := mkChatMessage {
  role : string;
  content : string
}.

Record FunctionCallInfo : Type := mkFunctionCallInfo {
  function_name : string;
  arguments : arguments_t
}.

(** A finished tool call: what was called, and the string it returned
    or the exception it raised. *)
Record CalledFunction : Type := mkCalledFunction {
  call_info : FunctionCallInfo;
  result : option string;
  exception : option exn
}.

(** A coroutine handed to [asyncio.create_task]. *)
Inductive task : Type :=
| Answer (text : string)                (* _answer(text) *)
| FollowUp (email : string).            (* follow_up_appointment(email) *)

(** The handler of [message_received]: the tasks it creates. *)
Definition on_message_received (message : string) : list task :=
  if truthy (Some message) then [Answer message] else [].

(** The handler of [function_calls_finished]: how it ends and the tasks
    it creates.  [_answer] takes one parameter, so the call
    [_answer(user_msg, use_image=True)] is a [TypeError]. *)
Definition on_function_calls_finished (called_functions : list CalledFunction)
  : outcome unit * list task :=
  match called_functions with
  | [] => (Returns tt, [])
  | first :: _ =>
      let user_msg := lookup "user_msg" (arguments (call_info first)) in
      if truthy user_msg
      then (Raises TypeError, [])
      else
        match lookup "email" (arguments (call_info first)) with
        | Some email =>
            if truthy (Some email)
            then (Returns tt, [FollowUp email])
            else (Returns tt, [])
        | None => (Returns tt, [])
        end
  end.

(** The state of one session while the event loop runs. *)
Record session : Type := mkSession {
  messages : list ChatMessage;       (* chat_context.messages *)
  sleeping : list (string * nat);    (* follow_up_appointment(email) tasks
                                        inside asyncio.sleep(20): the email
                                        and the seconds still to wait *)
  connected : bool;                  (* connection_state == CONN_CONNECTED *)
  entrypoint_returned : bool;        (* the while loop of entrypoint ended *)
  wire : list request                (* HTTP requests issued so far *)
}.

Definition system_prompt : string :=
  "Your name is Daela, a sales assistant for Knolabs AI Agency. " ++
  "You offer appointment booking for AI/Automation services through voice interaction.".

Definition initial : session :=
  mkSession [mkChatMessage "system" system_prompt] [] true false [].

(** [_answer(text)]: the text joins the chat context as a user message
    (the reply of the language model and its playback are external). *)
Definition answer (text : string) (s : session) : session :=
  mkSession (messages s ++ [mkChatMessage "user" text])%list
            (sleeping s) (connected s) (entrypoint_returned s) (wire s).

(** [asyncio.create_task(t)]: an answer runs at once, a follow-up starts
    its [asyncio.sleep(20)]. *)
Definition create_task (s : session) (t : task) : session :=
  match t with
  | Answer text => answer text s
  | FollowUp email =>
      mkSession (messages s) (sleeping s ++ [(email, 20)])%list
                (connected s) (entrypoint_returned s) (wire s)
  end.

(** [follow_up_appointment] once its sleep is over: the status check,
    then [_answer(status)].  The state is the one reached when the
    coroutine ends or, if the status check never comes back, the one in
    which it is left waiting (the request sent, nothing answered). *)
Definition wake (w : world) (s : session) (email : string) : session :=
  let (o, sent) := check_appointment_status email w in
  let s' := mkSession (messages s) (sleeping s) (connected s)
                      (entrypoint_returned s) (wire s ++ sent)%list in
  match o with
  | Returns status => answer status s'
  | _ => s'
  end.

(** Does the status check of a follow-up never come back?
    [check_appointment_status] calls the blocking [requests.get] from
    inside the coroutine, without a timeout: while it waits, the one
    thread of the event loop runs nothing else, so no other follow-up
    wakes, no handler runs and the loop of [entrypoint] does not test
    the connection. *)
Definition stuck (w : world) (email : string) : bool :=
  match fst (check_appointment_status email w) with
  | Hangs => true
  | _ => false
  end.

(** The follow-ups whose sleep ends wake in turn.  The first one whose
    status check never comes back blocks the event loop: the ones after
    it never wake.  The result is the state reached and whether the
    loop is blocked. *)
Fixpoint wake_in_turn (w : world) (now : list (string * nat)) (s : session)
  : session * bool :=
  match now with
  | [] => (s, false)
  | t :: rest =>
      if stuck w (fst t)
      then (wake w s (fst t), true)
      else wake_in_turn w rest (wake w s (fst t))
  end.

Definition due (t : string * nat) : bool := (snd t <=? 1)%nat.

(** One second on the event loop: every sleeping follow-up is one second
    closer, the ones whose sleep ends wake up in turn and, unless one of
    them has blocked the loop, the loop of [entrypoint] tests the
    connection again. *)
Definition second_outcome (w : world) (s : session) : session * bool :=
  let now := filter due (sleeping s) in
  let later := map (fun t => (fst t, snd t - 1)%nat)
                   (filter (fun t => negb (due t)) (sleeping s)) in
  let s1 := mkSession (messages s) later (connected s)
                      (entrypoint_returned s) (wire s) in
  let (s2, blocked) := wake_in_turn w now s1 in
  if blocked
  then (s2, true)
  else (mkSession (messages s2) (sleeping s2) (connected s2)
                  (entrypoint_returned s2 || negb (connected s2)) (wire s2),
        false).

Definition second (w : world) (s : session) : session :=
  fst (second_outcome w s).

Inductive event : Type :=
| FunctionCallsFinished (called_functions : list CalledFunction)
| MessageReceived (message : string)
| ConnectionLost                     (* the room is no longer connected *)
| Second.

(** The state an event leads to. *)
Definition step (w : world) (s : session) (e : event) : session :=
  match e with
  | FunctionCallsFinished called_functions =>
      fold_left create_task (snd (on_function_calls_finished called_functions)) s
  | MessageReceived message =>
      fold_left create_task (on_message_received message) s
  | ConnectionLost =>
      mkSession (messages s) (sleeping s) false
                (entrypoint_returned s) (wire s)
  | Second => second w s
  end.

(** Does the event leave the event loop blocked for good? *)
Definition blocks (w : world) (s : session) (e : event) : bool :=
  match e with
  | Second => snd (second_outcome w s)
  | _ => false
  end.

(** The events are taken one after the other for as long as the loop
    runs: once it is blocked, nothing that follows is processed and the
    session stays in the state in which it was blocked. *)
Fixpoint run (w : world) (s : session) (events : list event) : session :=
  match events with
  | [] => s
  | e :: rest =>
      if blocks w s e then step w s e else run w (step w s e) rest
  end.

(** The loop is never blocked while these events are processed. *)
Fixpoint alive (w : world) (s : session) (events : list event) : bool :=
  match events with
  | [] => true
  | e :: rest => negb (blocks w s e) && alive w (step w s e) rest
  end.

End WebRTCDemooAgent.

(* ================================================================== *)
(** * The tools as one family                                           *)
(* ================================================================== *)

Module Tools.
Import Py Requests.

(** One invocation of a tool that talks to the network. *)
Inductive invocation : Type :=
| SaveCandidateDetails (email name : string)
| ScheduleInterview (email slot : string)
| BookAppointment (email name : string)
| CheckAppointmentStatus (email : string).

Definition execute (str : json -> string) (i : invocation) : io string :=
  match i with
  | SaveCandidateDetails email name =>
      AIAssistedCustomerHelpDesk.save_candidate_details str email name
  | ScheduleInterview email slot =>
      AIAssistedCustomerHelpDesk.schedule_interview email slot
  | BookAppointment email name =>
      WebRTCDemooAgent.book_appointment email name
  | CheckAppointmentStatus email =>
      WebRTCDemooAgent.check_appointment_status email
  end.

End Tools.

(* ================================================================== *)
(** * Concrete worlds, used to run the definitions                      *)
(* ================================================================== *)

Module Sample.
Import Py Requests.
Local Open Scope string_scope.

Definition environ (name : string) : option string :=
  Py.lookup name
    [("API_TOKEN", "secret");
     ("CRM_CANDIDATE_ENDPOINT", "https://crm.test/candidates");
     ("INTERVIEW_SLOTS_ENDPOINT", "https://crm.test/slots");
     ("WEBHOOK_URL", "https://hooks.test/book");
     ("CRM_CONTACT_LOOKUP_ENDPOINT", "https://crm.test/contacts")].

(** A world whose network gives the same reply to every request. *)
Definition world_replying (r : reply) : world :=
  mkWorld environ (fun _ => r).

(** A stand-in for [str], used to run the definitions: exact on
    strings, booleans, [None] and integers; floats and containers, whose
    rendering is not written out here, are shown as a question mark. *)
Definition str (v : json) : string :=
  match v with
  | JString s => s
  | JBool true => "True"
  | JBool false => "False"
  | JNull => "None"
  | JInt z => NilEmpty.string_of_int (Z.to_int z)
  | _ => "?"
  end.

(** A world whose lookup endpoint never answers the request sent to
    the URL [silent] and gives the reply [r] to every other request. *)
Definition world_silent_on (silent : string) (r : reply) : world :=
  mkWorld environ
    (fun req => if String.eqb (url req) silent then Silent else r).

(** The body [{"candidate":{"id":"42"}}], decoded. *)
Definition candidate_42 : json :=
  JObject [("candidate", JObject [("id", JString "42")])].

Definition booking_call (email : string) (outcome_text : string)
  : WebRTCDemooAgent.CalledFunction :=
  WebRTCDemooAgent.mkCalledFunction
    (WebRTCDemooAgent.mkFunctionCallInfo "book_appointment"
       [("email", email); ("name", "Jo")])
    (Some outcome_text) None.

End Sample.

(* ================================================================== *)
(** * Properties stated in the words of the specification               *)
(* ================================================================== *)

Module Spec.
Import Py Requests.
Local Open Scope string_scope.

(** A part of an address: non-empty and without [@]. *)
Definition part (s : string) : Prop :=
  s <> "" /\ ~ In "@"%char (list_ascii_of_string s).

(** The same, on the characters of the string. *)
Definition part_chars (s : list ascii) : Prop :=
  s <> [] /\ ~ In "@"%char s.

(** The email format: local-part [@] domain [.] tld. *)
Definition EmailFormat (email : string) : Prop :=
  exists local domain tld : string,
    email = local ++ "@" ++ domain ++ "." ++ tld /\
    part local /\ part domain /\ part tld.

(** The string begins with an address in the email format. *)
Definition BeginsWithEmail (email : string) : Prop :=
  exists address rest : string,
    email = address ++ rest /\ EmailFormat address.

(** The contact records of a lookup body and the tags of a record, an
    absent field counting as the empty list. *)
Definition records (body : json) : list json :=
  match body with
  | JObject d =>
      match lookup "contacts" d with
      | Some (JArray cs) => cs
      | _ => []
      end
  | _ => []
  end.

Definition tags_of (contact : json) : list json :=
  match contact with
  | JObject d =>
      match lookup "tags" d with
      | Some (JArray ts) => ts
      | _ => []
      end
  | _ => []
  end.

(** The booked-marker tag is among the tags of a returned record. *)
Definition marked_booked (body : json) : Prop :=
  exists contact,
    In contact (records body) /\
    In (JString WebRTCDemooAgent.booked_tag) (tags_of contact).

(** The expected shape of a record: an object whose [tags], when
    present, is a list. *)
Definition record_shape (contact : json) : Prop :=
  exists d, contact = JObject d /\
            (lookup "tags" d = None \/
             exists ts, lookup "tags" d = Some (JArray ts)).

(** The expected shape of a lookup body: an object whose [contacts],
    when present, is a list of records. *)
Definition body_shape (body : json) : Prop :=
  exists d, body = JObject d /\
            (lookup "contacts" d = None \/
             exists cs, lookup "contacts" d = Some (JArray cs) /\
                        Forall record_shape cs).

(** [needle] occurs in [text]. *)
Definition occurs_in (needle text : string) : Prop :=
  exists before after : string, text = before ++ needle ++ after.

End Spec.

(* ================================================================== *)
(** * Vocabulary for the behaviour of the tools and of a session        *)
(* ================================================================== *)

Module Behaviour.
Import Regex Py Requests.
Local Open Scope string_scope.

(** The request an invocation sends, when it sends one. *)
Definition request_of (w : world) (i : Tools.invocation) : request :=
  match i with
  | Tools.SaveCandidateDetails email name =>
      AIAssistedCustomerHelpDesk.candidate_request w email name
  | Tools.ScheduleInterview email slot =>
      AIAssistedCustomerHelpDesk.interview_request w email slot
  | Tools.BookAppointment email name =>
      WebRTCDemooAgent.webhook_request w email name
  | Tools.CheckAppointmentStatus email =>
      WebRTCDemooAgent.lookup_request w email
  end.

(** The string of the [except] clause of each tool. *)
Definition failure_message (i : Tools.invocation) : string :=
  match i with
  | Tools.SaveCandidateDetails _ _ =>
      AIAssistedCustomerHelpDesk.msg_candidate_failed
  | Tools.ScheduleInterview _ _ =>
      AIAssistedCustomerHelpDesk.msg_interview_failed
  | Tools.BookAppointment _ _ => WebRTCDemooAgent.msg_booking_error
  | Tools.CheckAppointmentStatus _ => WebRTCDemooAgent.msg_status_error
  end.

(** The environment variable that holds the endpoint of each tool. *)
Definition endpoint_variable (i : Tools.invocation) : string :=
  match i with
  | Tools.SaveCandidateDetails _ _ => "CRM_CANDIDATE_ENDPOINT"
  | Tools.ScheduleInterview _ _ => "INTERVIEW_SLOTS_ENDPOINT"
  | Tools.BookAppointment _ _ => "WEBHOOK_URL"
  | Tools.CheckAppointmentStatus _ => "CRM_CONTACT_LOOKUP_ENDPOINT"
  end.

(** A record shows the marker: as an element when its [tags] is a
    list, as a piece of the text when it is a string, as a key when it
    is an object. *)
Definition shows_marker (contact : json) : Prop :=
  exists o, contact = JObject o /\
    ((exists ts, lookup "tags" o = Some (JArray ts) /\
                 In (JString WebRTCDemooAgent.booked_tag) ts) \/
     (exists s, lookup "tags" o = Some (JString s) /\
                Spec.occurs_in WebRTCDemooAgent.booked_tag s) \/
     (exists m, lookup "tags" o = Some (JObject m) /\
                In WebRTCDemooAgent.booked_tag (map fst m))).

(** The message [_answer(text)] adds to the chat context. *)
Definition user_message (text : string) : WebRTCDemooAgent.ChatMessage :=
  WebRTCDemooAgent.mkChatMessage "user" text.

(** What a follow-up tells the language model: the status, when the
    status check returned one. *)
Definition said (w : world) (email : string)
  : list WebRTCDemooAgent.ChatMessage :=
  match fst (WebRTCDemooAgent.check_appointment_status email w) with
  | Returns status => [user_message status]
  | _ => []
  end.

(** The status check of a sleeping follow-up. *)
Definition check_of (w : world) (t : string * nat) : request :=
  WebRTCDemooAgent.lookup_request w (fst t).


(** A sleeping follow-up one second later. *)
Definition one_second_less (t : string * nat) : string * nat :=
  (fst t, snd t - 1)%nat.




End Behaviour.

(* ================================================================== *)
(** * Facts about the pattern matcher                                   *)
(* ================================================================== *)

Module RegexFacts.
Import Regex.

Lemma matches_nil_nullable (r : regex) : matches r [] -> nullable r = true.
Proof.
  intro H. remember (@nil ascii) as s eqn:Es.
  induction H; simpl; try reflexivity; try discriminate.
  - apply app_eq_nil in Es. destruct Es as [E1 E2].
    rewrite IHmatches1, IHmatches2; auto.
  - rewrite IHmatches; auto.
  - rewrite IHmatches; auto using orb_true_r.
Qed.

Lemma nullable_matches_nil (r : regex) : nullable r = true -> matches r [].
Proof.
  induction r; simpl; intro H; try discriminate.
  - constructor.
  - apply andb_prop in H. destruct H as [H1 H2].
    change (@nil ascii) with (@nil ascii ++ []). constructor; auto.
  - apply orb_prop in H. destruct H as [H | H].
    + apply m_alt_l; auto.
    + apply m_alt_r; auto.
  - constructor.
Qed.

(** Reading one character: soundness of the residual. *)
Lemma deriv_sound (c : ascii) (r : regex) :
  forall s, matches (deriv c r) s -> matches r (c :: s).
Proof.
  induction r; simpl; intros s H.
  - inversion H.
  - inversion H.
  - destruct (Ascii.eqb_spec c a) as [-> | ne]; inversion H; subst.
    constructor.
  - destruct (in_set c l) eqn:E; inversion H; subst.
    constructor; assumption.
  - destruct (nullable r1) eqn:N.
    + inversion H as [ | | | | ? ? ? H1 | ? ? ? H2 | | ]; subst.
      * inversion H1; subst.
        change (c :: s1 ++ s2) with ((c :: s1) ++ s2).
        constructor; auto.
      * change (c :: s) with ([] ++ c :: s).
        constructor; auto using nullable_matches_nil.
    + inversion H; subst.
      change (c :: s1 ++ s2) with ((c :: s1) ++ s2).
      constructor; auto.
  - inversion H; subst.
    + apply m_alt_l; auto.
    + apply m_alt_r; auto.
  - inversion H; subst.
    change (c :: s1 ++ s2) with ((c :: s1) ++ s2).
    apply m_star_app; auto.
Qed.

(** Reading one character: completeness of the residual. *)
Lemma deriv_complete (c : ascii) (r : regex) :
  forall s, matches r (c :: s) -> matches (deriv c r) s.
Proof.
  intros s0 H. remember (c :: s0) as cs eqn:E. revert s0 E.
  induction H as [ | a | cs a Ha | r1 r2 s1 s2 H1 IH1 H2 IH2
                   | r1 r2 s H1 IH1 | r1 r2 s H2 IH2
                   | r | r s1 s2 H1 IH1 H2 IH2 ];
    intros t E; simpl; try discriminate.
  - injection E as -> <-. rewrite Ascii.eqb_refl. constructor.
  - injection E as -> <-. rewrite Ha. constructor.
  - destruct s1 as [ | a s1']; simpl in E.
    + subst s2. rewrite (matches_nil_nullable H1).
      apply m_alt_r. apply IH2. reflexivity.
    + injection E as -> <-.
      destruct (nullable r1).
      * apply m_alt_l. constructor; auto.
      * constructor; auto.
  - apply m_alt_l; auto.
  - apply m_alt_r; auto.
  - destruct s1 as [ | a s1']; simpl in E.
    + subst s2. apply IH2. reflexivity.
    + injection E as -> <-. constructor; auto.
Qed.

Lemma full_match_spec (r : regex) (s : list ascii) :
  full_match r s = true <-> matches r s.
Proof.
  revert r. induction s as [ | c s IH]; intro r; simpl.
  - split; auto using matches_nil_nullable, nullable_matches_nil.
  - rewrite IH. split; auto using deriv_sound, deriv_complete.
Qed.

(** [prefix_match] finds a match exactly when some prefix is in the
    language of the pattern. *)
Lemma prefix_match_spec (r : regex) (s : list ascii) :
  prefix_match r s = true <-> exists p q, s = p ++ q /\ matches r p.
Proof.
  revert r. induction s as [ | c s IH]; intro r; simpl.
  - rewrite orb_false_r. split.
    + intro H. exists [], []. auto using nullable_matches_nil.
    + intros (p & q & E & H). symmetry in E. apply app_eq_nil in E.
      destruct E as [-> _]. auto using matches_nil_nullable.
  - split.
    + intro H. apply orb_prop in H. destruct H as [H | H].
      * exists [], (c :: s). auto using nullable_matches_nil.
      * apply IH in H. destruct H as (p & q & -> & H).
        exists (c :: p), q. auto using deriv_sound.
    + intros (p & q & E & H). destruct p as [ | a p]; simpl in E.
      * rewrite (matches_nil_nullable H). reflexivity.
      * injection E as <- ->. apply orb_true_iff. right.
        apply IH. exists p, q. auto using deriv_complete.
Qed.

(** [[^...]*] matches the strings made of characters outside the set. *)
Lemma star_notset_spec (cs s : list ascii) :
  matches (Star (NotSet cs)) s <-> Forall (fun c => in_set c cs = false) s.
Proof.
  split.
  - intro H. remember (Star (NotSet cs)) as r eqn:E.
    induction H; try discriminate.
    + constructor.
    + injection E as ->. inversion H; subst. simpl.
      constructor; auto.
  - induction 1 as [ | c s Hc _ IH].
    + constructor.
    + change (c :: s) with ([c] ++ s). constructor; auto.
      constructor; assumption.
Qed.

(** [[^...]+]: at least one character, all outside the set. *)
Lemma plus_notset_spec (cs s : list ascii) :
  matches (Plus (NotSet cs)) s <->
  s <> [] /\ Forall (fun c => in_set c cs = false) s.
Proof.
  unfold Plus. split.
  - intro H. inversion H as [ | | | ? ? ? ? H1 H2 | | | | ]; subst.
    inversion H1; subst. simpl. split; [discriminate | ].
    constructor; auto. apply star_notset_spec; assumption.
  - intros [Hne Hall]. destruct s as [ | c s]; [congruence | ].
    inversion Hall; subst.
    change (c :: s) with ([c] ++ s). constructor.
    + constructor; assumption.
    + apply star_notset_spec; assumption.
Qed.

Lemma lit_spec (c : ascii) (s : list ascii) : matches (Lit c) s <-> s = [c].
Proof.
  split.
  - intro H; inversion H; reflexivity.
  - intros ->; constructor.
Qed.

Lemma cat_spec (r1 r2 : regex) (s : list ascii) :
  matches (Cat r1 r2) s <->
  exists s1 s2, s = s1 ++ s2 /\ matches r1 s1 /\ matches r2 s2.
Proof.
  split.
  - intro H; inversion H; subst. eauto.
  - intros (s1 & s2 & -> & H1 & H2). constructor; assumption.
Qed.

End RegexFacts.

(* ================================================================== *)
(** * What the email pattern accepts                                    *)
(* ================================================================== *)

Module EmailFacts.
Import Regex RegexFacts Py Requests WebRTCDemooAgent.
Local Open Scope string_scope.

Lemma chars_app (a b : string) :
  list_ascii_of_string (a ++ b) =
  (list_ascii_of_string a ++ list_ascii_of_string b)%list.
Proof.
  induction a as [ | c a IH]; simpl; [reflexivity | now rewrite IH].
Qed.

Lemma of_chars_app (a b : list ascii) :
  string_of_list_ascii (a ++ b)%list =
  string_of_list_ascii a ++ string_of_list_ascii b.
Proof.
  induction a as [ | c a IH]; simpl; [reflexivity | now rewrite IH].
Qed.

Lemma part_chars_of_string (s : string) :
  Spec.part s <-> Spec.part_chars (list_ascii_of_string s).
Proof.
  unfold Spec.part, Spec.part_chars. destruct s; simpl.
  - split; intros [H _]; exfalso; apply H; reflexivity.
  - split; intros [_ H]; (split; [discriminate | exact H]).
Qed.

Lemma part_chars_to_string (s : list ascii) :
  Spec.part_chars s <-> Spec.part (string_of_list_ascii s).
Proof.
  rewrite part_chars_of_string, list_ascii_of_string_of_list_ascii.
  reflexivity.
Qed.

Lemma outside_at (s : list ascii) :
  Forall (fun c => in_set c ["@"%char] = false) s <-> ~ In "@"%char s.
Proof.
  induction s as [ | c s IH]; simpl.
  - split; [intros _ [] | constructor].
  - split.
    + intros H. inversion H as [ | ? ? Hc Hs]; subst.
      unfold in_set in Hc. simpl in Hc. rewrite orb_false_r in Hc.
      apply Ascii.eqb_neq in Hc. intros [E | Hin].
      * apply Hc. exact E.
      * apply IH in Hs. contradiction.
    + intros H. constructor.
      * unfold in_set. simpl. rewrite orb_false_r.
        apply Ascii.eqb_neq. intro E. apply H. left. exact E.
      * apply IH. intro Hin. apply H. right. exact Hin.
Qed.

Lemma plus_not_at_spec (s : list ascii) :
  matches (Plus (NotSet ["@"%char])) s <-> Spec.part_chars s.
Proof.
  rewrite plus_notset_spec, outside_at. reflexivity.
Qed.

(** The language of [email_pattern], on character lists. *)
Lemma email_pattern_chars (p : list ascii) :
  matches email_pattern p <->
  exists l d t,
    p = (l ++ "@"%char :: d ++ "."%char :: t)%list /\
    Spec.part_chars l /\ Spec.part_chars d /\ Spec.part_chars t.
Proof.
  unfold email_pattern. split.
  - intro H.
    apply cat_spec in H. destruct H as (l & r1 & -> & Hl & H).
    apply cat_spec in H. destruct H as (a & r2 & -> & Ha & H).
    apply cat_spec in H. destruct H as (d & r3 & -> & Hd & H).
    apply cat_spec in H. destruct H as (b & t & -> & Hb & Ht).
    apply lit_spec in Ha. apply lit_spec in Hb. subst a b.
    apply plus_not_at_spec in Hl, Hd, Ht.
    exists l, d, t. simpl. auto.
  - intros (l & d & t & -> & Hl & Hd & Ht).
    apply plus_not_at_spec in Hl, Hd, Ht.
    apply cat_spec. exists l, ("@"%char :: d ++ "."%char :: t)%list.
    split; [reflexivity | split; [assumption | ]].
    apply cat_spec. exists ["@"%char], (d ++ "."%char :: t)%list.
    split; [reflexivity | split; [constructor | ]].
    apply cat_spec. exists d, ("."%char :: t)%list.
    split; [reflexivity | split; [assumption | ]].
    apply cat_spec. exists ["."%char], t.
    split; [reflexivity | split; [constructor | assumption]].
Qed.

(** The language of [email_pattern] is the email format of the
    specification. *)
Lemma email_pattern_format (email : string) :
  matches email_pattern (list_ascii_of_string email) <->
  Spec.EmailFormat email.
Proof.
  rewrite email_pattern_chars. unfold Spec.EmailFormat. split.
  - intros (l & d & t & E & Hl & Hd & Ht).
    exists (string_of_list_ascii l), (string_of_list_ascii d),
           (string_of_list_ascii t).
    rewrite <- (string_of_list_ascii_of_string email), E.
    rewrite of_chars_app. simpl. rewrite of_chars_app. simpl.
    split; [reflexivity | ].
    rewrite <- !part_chars_to_string. auto.
  - intros (l & d & t & -> & Hl & Hd & Ht).
    exists (list_ascii_of_string l), (list_ascii_of_string d),
           (list_ascii_of_string t).
    rewrite chars_app. simpl. rewrite chars_app. simpl.
    rewrite <- !part_chars_of_string. auto.
Qed.

(** [re.match(email_pattern, email)] succeeds exactly on the strings
    that begin with an address in the email format. *)
Lemma re_match_email (email : string) :
  re_match email_pattern email = true <-> Spec.BeginsWithEmail email.
Proof.
  unfold re_match, Spec.BeginsWithEmail. rewrite prefix_match_spec. split.
  - intros (p & q & E & H).
    exists (string_of_list_ascii p), (string_of_list_ascii q). split.
    + rewrite <- of_chars_app, <- E.
      symmetry. apply string_of_list_ascii_of_string.
    + apply email_pattern_format.
      rewrite list_ascii_of_string_of_list_ascii. exact H.
  - intros (a & rest & -> & H).
    exists (list_ascii_of_string a), (list_ascii_of_string rest).
    split; [apply chars_app | ]. apply email_pattern_format. exact H.
Qed.

(** [re.fullmatch] would accept exactly the email format. *)
Lemma full_match_email (email : string) :
  full_match email_pattern (list_ascii_of_string email) = true <->
  Spec.EmailFormat email.
Proof.
  rewrite full_match_spec. apply email_pattern_format.
Qed.

End EmailFacts.

(* ================================================================== *)
(** * How each tool runs, in closed form                                *)
(* ================================================================== *)

Module ToolFacts.
Import Regex Py Requests AIAssistedCustomerHelpDesk WebRTCDemooAgent.
Local Open Scope string_scope.

Lemma is_2xx_not_error (r : response) : is_2xx r -> is_error_status r = false.
Proof.
  unfold is_2xx, is_error_status. intro H.
  apply andb_false_iff. left. apply Z.leb_gt. lia.
Qed.

Ltac run_io :=
  unfold try_except, bind, os_getenv, requests_post, requests_get, send,
         raise_for_status, response_json, lift, ret, raise;
  cbn -[String.append].

(** Splits an outcome that cannot be a [RequestException]. *)
Ltac split_outcome o x P :=
  destruct o as [x | [e | ? | | ] | ];
  cbn -[String.append]; try reflexivity;
  try (exfalso; exact (P e eq_refl)).

Lemma candidate_reply_passes (str : json -> string) (body : json) :
  passes (candidate_reply str body).
Proof.
  intro e. unfold candidate_reply.
  destruct body as [ | | | | | | d]; simpl; try discriminate.
  destruct (lookup "candidate" d) as [c | ]; simpl; try discriminate.
  destruct c as [ | | | | | | d']; simpl; try discriminate.
  destruct (lookup "id" d'); simpl; discriminate.
Qed.

Lemma scan_contacts_passes (cs : list json) : passes (scan_contacts cs).
Proof.
  induction cs as [ | c cs IH]; intros e; simpl.
  - discriminate.
  - destruct c as [ | | | | | | d]; simpl; try discriminate.
    destruct (lookup "tags" d) as [ [ | | | | s | l | o ] | ]; simpl;
      try discriminate; try (apply IH);
      match goal with |- context [if ?b then _ else _] => destruct b end;
      try discriminate; apply IH.
Qed.

Lemma classify_passes (data : json) : passes (classify data).
Proof.
  intros e. unfold classify.
  destruct data as [ | | | | | | d]; simpl; try discriminate.
  destruct (lookup "contacts" d) as [ [ | | | | s | l | o ] | ]; simpl;
    try discriminate; apply scan_contacts_passes.
Qed.

Lemma save_candidate_details_runs (str : json -> string)
      (email name : string) (w : world) :
  save_candidate_details str email name w =
  (match network w (candidate_request w email name) with
   | Answers r =>
       if is_error_status r then Returns msg_candidate_failed
       else match decoded r with
            | Some body => candidate_reply str body
            | None => Returns msg_candidate_failed
            end
   | Fails => Returns msg_candidate_failed
   | Silent => Hangs
   end, [candidate_request w email name]).
Proof.
  unfold save_candidate_details, candidate_request. run_io.
  destruct (network w _) as [r | | ]; try reflexivity.
  destruct (is_error_status r); cbn -[String.append]; try reflexivity.
  destruct (decoded r) as [body | ]; cbn -[String.append]; try reflexivity.
  assert (P := candidate_reply_passes str body).
  unfold candidate_reply, obind, passes in *.
  split_outcome (getitem body "candidate") candidate P.
  split_outcome (getitem candidate "id") candidate_id P.
Qed.

Lemma schedule_interview_runs (email slot : string) (w : world) :
  schedule_interview email slot w =
  (match network w (interview_request w email slot) with
   | Answers r =>
       if is_error_status r then Returns msg_interview_failed
       else Returns (msg_interview_scheduled slot)
   | Fails => Returns msg_interview_failed
   | Silent => Hangs
   end, [interview_request w email slot]).
Proof.
  unfold schedule_interview, interview_request. run_io.
  destruct (network w _) as [r | | ]; try reflexivity.
  destruct (is_error_status r); reflexivity.
Qed.

Lemma book_appointment_runs (email name : string) (w : world) :
  book_appointment email name w =
  if re_match email_pattern email
  then (match network w (webhook_request w email name) with
        | Answers r =>
            if is_error_status r then Returns msg_booking_error
            else Returns (msg_booking_sent email)
        | Fails => Returns msg_booking_error
        | Silent => Hangs
        end, [webhook_request w email name])
  else (Returns msg_email_incorrect, []).
Proof.
  unfold book_appointment, webhook_request.
  destruct (re_match email_pattern email); [ | reflexivity].
  run_io.
  destruct (network w _) as [r | | ]; try reflexivity.
  destruct (is_error_status r); reflexivity.
Qed.

Lemma check_appointment_status_runs (email : string) (w : world) :
  check_appointment_status email w =
  (match network w (lookup_request w email) with
   | Answers r =>
       if is_error_status r then Returns msg_status_error
       else match decoded r with
            | Some data => classify data
            | None => Returns msg_status_error
            end
   | Fails => Returns msg_status_error
   | Silent => Hangs
   end, [lookup_request w email]).
Proof.
  unfold check_appointment_status, lookup_request. run_io.
  destruct (network w _) as [r | | ]; try reflexivity.
  destruct (is_error_status r); cbn -[String.append]; try reflexivity.
  destruct (decoded r) as [data | ]; cbn -[String.append]; try reflexivity.
  assert (P := classify_passes data). unfold classify, obind, passes in *.
  split_outcome (get data "contacts" (JArray [])) contacts P.
  split_outcome (iter contacts) items P.
  split_outcome (scan_contacts items) status P.
Qed.

Lemma candidate_reply_ends (str : json -> string) (body : json) :
  candidate_reply str body <> Hangs.
Proof.
  unfold candidate_reply.
  destruct body as [ | | | | | | d]; simpl; try discriminate.
  destruct (lookup "candidate" d) as [c | ]; simpl; try discriminate.
  destruct c as [ | | | | | | d']; simpl; try discriminate.
  destruct (lookup "id" d'); simpl; discriminate.
Qed.

Lemma scan_contacts_ends (cs : list json) : scan_contacts cs <> Hangs.
Proof.
  induction cs as [ | c cs IH]; simpl; [discriminate | ].
  destruct c as [ | | | | | | d]; simpl; try discriminate.
  destruct (lookup "tags" d) as [ [ | | | | s | l | o ] | ]; simpl;
    try discriminate; try (exact IH);
    match goal with |- context [if ?b then _ else _] => destruct b end;
    try discriminate; exact IH.
Qed.

Lemma classify_ends (data : json) : classify data <> Hangs.
Proof.
  unfold classify.
  destruct data as [ | | | | | | d]; simpl; try discriminate.
  destruct (lookup "contacts" d) as [ [ | | | | s | l | o ] | ]; simpl;
    try discriminate; apply scan_contacts_ends.
Qed.

End ToolFacts.

(* ================================================================== *)
(** * The help-desk tools                                               *)
(* ================================================================== *)

Import Regex Py Requests.
Import AIAssistedCustomerHelpDesk WebRTCDemooAgent ToolFacts.
Local Open Scope string_scope.

(** C8 (Scenario A).  [save_candidate_details] called with the email
    [a@b.com] and the name [Jo], the endpoint answering 2xx with the
    body that decodes to [Sample.candidate_42] (a [candidate] object
    whose [id] is the string 42): the tool returns its confirmation
    message, and the identifier 42 read from the response occurs in
    it.  One POST is issued. *)
Theorem save_candidate_details_scenario_A
        (str : json -> string) (w : world) (r : response) :
  (forall s, str (JString s) = s) ->
  network w (candidate_request w "a@b.com" "Jo") = Answers r ->
  is_2xx r ->
  decoded r = Some Sample.candidate_42 ->
  save_candidate_details str "a@b.com" "Jo" w =
    (Returns (msg_candidate_saved "42"),
     [candidate_request w "a@b.com" "Jo"]) /\
  Spec.occurs_in "42" (msg_candidate_saved "42").
Proof.
  intros Hstr Hnet H2xx Hbody. split.
  - rewrite save_candidate_details_runs, Hnet.
    rewrite (is_2xx_not_error H2xx), Hbody.
    unfold candidate_reply. simpl. rewrite Hstr. reflexivity.
  - exists "Candidate details saved with ID: ", ".". reflexivity.
Qed.

(** Scenario A against a stub that answers 200. *)
Lemma save_candidate_details_scenario_A_witness :
  let w := Sample.world_replying
             (Answers (mkResponse 200 (Some Sample.candidate_42))) in
  save_candidate_details Sample.str "a@b.com" "Jo" w =
    (Returns "Candidate details saved with ID: 42.",
     [candidate_request w "a@b.com" "Jo"]) /\
  Spec.occurs_in "42" "Candidate details saved with ID: 42.".
Proof.
  intro w.
  apply (@save_candidate_details_scenario_A Sample.str w
           (mkResponse 200 (Some Sample.candidate_42))).
  - intro s. reflexivity.
  - reflexivity.
  - unfold is_2xx. simpl. lia.
  - reflexivity.
Defined.

(** C1 (where the code departs from it).  When the endpoint answers 2xx
    with a JSON object that has no [candidate] key, or whose [candidate]
    object has no [id] key, [save_candidate_details] does not return a
    result string: the subscript raises [KeyError], which
    [except requests.RequestException] does not handle, and the
    exception reaches the caller. *)
Theorem save_candidate_details_raises_KeyError
        (str : json -> string) (email name : string) (w : world)
        (r : response) (d : list (string * json)) (key : string) :
  network w (candidate_request w email name) = Answers r ->
  is_2xx r ->
  decoded r = Some (JObject d) ->
  (lookup "candidate" d = None /\ key = "candidate") \/
  (exists c, lookup "candidate" d = Some (JObject c) /\
             lookup "id" c = None /\ key = "id") ->
  save_candidate_details str email name w =
    (Raises (KeyError key), [candidate_request w email name]).
Proof.
  intros Hnet H2xx Hbody Hkey.
  rewrite save_candidate_details_runs, Hnet.
  rewrite (is_2xx_not_error H2xx), Hbody.
  unfold candidate_reply. simpl.
  destruct Hkey as [[Hc ->] | (c & Hc & Hid & ->)]; rewrite Hc; simpl.
  - reflexivity.
  - rewrite Hid. reflexivity.
Qed.

(** The empty object as the body of a 200 answer. *)
Lemma save_candidate_details_raises_KeyError_witness :
  let w := Sample.world_replying (Answers (mkResponse 200 (Some (JObject [])))) in
  save_candidate_details Sample.str "a@b.com" "Jo" w =
    (Raises (KeyError "candidate"), [candidate_request w "a@b.com" "Jo"]).
Proof.
  intro w.
  apply (@save_candidate_details_raises_KeyError Sample.str "a@b.com" "Jo" w
           (mkResponse 200 (Some (JObject []))) [] "candidate").
  - reflexivity.
  - unfold is_2xx. simpl. lia.
  - reflexivity.
  - left. split; reflexivity.
Defined.

(** The same slip in the status check: a 2xx answer whose body is a
    JSON list has no [get] method, and the [AttributeError] is not
    handled either. *)
Lemma check_appointment_status_raises_on_list
      (email : string) (w : world) (r : response) (l : list json) :
  network w (lookup_request w email) = Answers r ->
  is_2xx r ->
  decoded r = Some (JArray l) ->
  check_appointment_status email w =
    (Raises AttributeError, [lookup_request w email]).
Proof.
  intros Hnet H2xx Hbody.
  rewrite check_appointment_status_runs, Hnet.
  rewrite (is_2xx_not_error H2xx), Hbody. reflexivity.
Qed.

(* ================================================================== *)
(** * The booking tool                                                  *)
(* ================================================================== *)

(** [book_appointment] sends its request exactly when the pattern finds
    a match. *)
Lemma book_appointment_trace (email name : string) (w : world) :
  snd (book_appointment email name w) =
  if re_match email_pattern email then [webhook_request w email name] else [].
Proof.
  rewrite book_appointment_runs.
  destruct (re_match email_pattern email); reflexivity.
Qed.

Lemma not_begins_no_match (email : string) :
  ~ Spec.BeginsWithEmail email -> re_match email_pattern email = false.
Proof.
  intro H. destruct (re_match email_pattern email) eqn:E; [ | reflexivity].
  exfalso. apply H. apply EmailFacts.re_match_email. exact E.
Qed.

(** C2, as amended.  For every string that does not begin with an
    address of the form local-part [@] domain [.] tld (the three parts
    non-empty and free of [@]), [book_appointment] returns the message
    saying that the email address seems incorrect and issues no HTTP
    request. *)
Theorem book_appointment_rejects_without_io
        (email name : string) (w : world) :
  ~ Spec.BeginsWithEmail email ->
  book_appointment email name w = (Returns msg_email_incorrect, []).
Proof.
  intro H. rewrite book_appointment_runs.
  rewrite (not_begins_no_match H). reflexivity.
Qed.

(** Scenario B: [bad-email] is rejected and the stub is never called. *)
Lemma book_appointment_rejects_without_io_witness :
  ~ Spec.BeginsWithEmail "bad-email" /\
  book_appointment "bad-email" "Jo" (Sample.world_replying Fails) =
    (Returns "The email address seems incorrect. Please provide a valid one.",
     []).
Proof.
  assert (H : ~ Spec.BeginsWithEmail "bad-email").
  { intro B. apply EmailFacts.re_match_email in B. vm_compute in B.
    discriminate B. }
  split; [exact H | ].
  exact (@book_appointment_rejects_without_io "bad-email" "Jo"
           (Sample.world_replying Fails) H).
Defined.

(** C2, as stated, fails: the string [a@b.c@] is not of the form
    local-part [@] domain [.] tld, yet [book_appointment] accepts it,
    because [re.match] only asks for a match at the start of the
    string: the webhook is called and the success message returned. *)
Lemma book_appointment_accepts_trailing_text :
  let w := Sample.world_replying (Answers (mkResponse 200 None)) in
  ~ Spec.EmailFormat "a@b.c@" /\
  book_appointment "a@b.c@" "Jo" w =
    (Returns (msg_booking_sent "a@b.c@"), [webhook_request w "a@b.c@" "Jo"]).
Proof.
  intro w. split.
  - intro F. apply EmailFacts.full_match_email in F. vm_compute in F.
    discriminate F.
  - reflexivity.
Qed.

(** C10.  Whenever the webhook answers the request of [book_appointment]
    with a 2xx status, whatever the body of the answer, the tool returns
    its success message, in which the email given by the caller occurs
    unchanged. *)
Theorem book_appointment_2xx_succeeds
        (email name : string) (w : world) (req : request) (r : response) :
  In req (snd (book_appointment email name w)) ->
  network w req = Answers r ->
  is_2xx r ->
  fst (book_appointment email name w) = Returns (msg_booking_sent email) /\
  Spec.occurs_in email (msg_booking_sent email).
Proof.
  intros Hreq Hnet H2xx. split.
  - rewrite book_appointment_trace in Hreq. rewrite book_appointment_runs.
    destruct (re_match email_pattern email); simpl in Hreq.
    + destruct Hreq as [<- | []]. rewrite Hnet.
      rewrite (is_2xx_not_error H2xx). reflexivity.
    + contradiction.
  - exists "Appointment booking link sent to ", ". Please check your email.".
    reflexivity.
Qed.

(** A 204 answer with an unrelated body. *)
Lemma book_appointment_2xx_succeeds_witness :
  let w := Sample.world_replying
             (Answers (mkResponse 204 (Some (JArray [JNull])))) in
  fst (book_appointment "a@b.com" "Jo" w) =
    Returns "Appointment booking link sent to a@b.com. Please check your email." /\
  Spec.occurs_in "a@b.com"
    "Appointment booking link sent to a@b.com. Please check your email.".
Proof.
  intro w.
  apply (@book_appointment_2xx_succeeds "a@b.com" "Jo" w
           (webhook_request w "a@b.com" "Jo")
           (mkResponse 204 (Some (JArray [JNull])))).
  - simpl. left. reflexivity.
  - reflexivity.
  - unfold is_2xx. simpl. lia.
Defined.

(* ================================================================== *)
(** * The status check                                                  *)
(* ================================================================== *)

Lemma str_eq_true (needle : string) (v : json) :
  str_eq needle v = true <-> v = JString needle.
Proof.
  destruct v; simpl; try (split; [discriminate | intro E; discriminate E]).
  rewrite String.eqb_eq. split.
  - intros ->. reflexivity.
  - intro E. injection E as ->. reflexivity.
Qed.

Lemma has_tag_In (needle : string) (tags : list json) :
  existsb (str_eq needle) tags = true <-> In (JString needle) tags.
Proof.
  rewrite existsb_exists. split.
  - intros (v & Hin & Hv). apply str_eq_true in Hv. subst v. exact Hin.
  - intro Hin. exists (JString needle). split; [exact Hin | ].
    apply str_eq_true. reflexivity.
Qed.

(** Does a record carry the marker, by the reading of [Spec.tags_of]? *)
Lemma scan_contacts_shape (cs : list json) :
  Forall Spec.record_shape cs ->
  scan_contacts cs =
  Returns (if existsb (fun c => existsb (str_eq booked_tag) (Spec.tags_of c)) cs
           then msg_booked else msg_not_booked).
Proof.
  induction 1 as [ | c cs Hc _ IH]; [reflexivity | ].
  destruct Hc as (d & -> & [Ht | (ts & Ht)]);
    cbn [scan_contacts get obind contains existsb Spec.tags_of]; rewrite Ht.
  - cbn [obind contains existsb orb]. exact IH.
  - cbn [obind contains].
    destruct (existsb (str_eq booked_tag) ts); [reflexivity | exact IH].
Qed.

Lemma classify_shape (body : json) :
  Spec.body_shape body ->
  classify body =
  Returns (if existsb (fun c => existsb (str_eq booked_tag) (Spec.tags_of c))
                      (Spec.records body)
           then msg_booked else msg_not_booked).
Proof.
  intros (d & -> & [Hc | (cs & Hc & Hcs)]);
    unfold classify; cbn [get obind Spec.records]; rewrite Hc.
  - reflexivity.
  - cbn [obind iter]. apply scan_contacts_shape. exact Hcs.
Qed.

Lemma marked_booked_existsb (body : json) :
  existsb (fun c => existsb (str_eq booked_tag) (Spec.tags_of c))
          (Spec.records body) = true <->
  Spec.marked_booked body.
Proof.
  unfold Spec.marked_booked. rewrite existsb_exists.
  split; intros (c & Hin & Hc); exists c; (split; [exact Hin | ]);
    apply has_tag_In; exact Hc.
Qed.

(** C3, as amended.  When the lookup endpoint answers 2xx with a body
    of the expected shape (a JSON object whose [contacts], if present,
    is a list of objects whose [tags], if present, is a list),
    [check_appointment_status] issues exactly one request, a GET, and
    returns the successfully-booked message if and only if the marker
    [livekit_appointment_booked] is among the tags of a returned
    record; otherwise it returns the not-yet-booked message. *)
Theorem check_appointment_status_classifies
        (email : string) (w : world) (r : response) (body : json) :
  network w (lookup_request w email) = Answers r ->
  is_2xx r ->
  decoded r = Some body ->
  Spec.body_shape body ->
  snd (check_appointment_status email w) = [lookup_request w email] /\
  method (lookup_request w email) = GET /\
  (fst (check_appointment_status email w) = Returns msg_booked
   <-> Spec.marked_booked body) /\
  (fst (check_appointment_status email w) = Returns msg_not_booked
   <-> ~ Spec.marked_booked body).
Proof.
  intros Hnet H2xx Hbody Hshape.
  rewrite check_appointment_status_runs, Hnet.
  rewrite (is_2xx_not_error H2xx), Hbody, (classify_shape Hshape).
  cbn [fst snd]. rewrite <- marked_booked_existsb.
  split; [reflexivity | split; [reflexivity | ] ].
  destruct (existsb _ (Spec.records body)); split; split;
    try reflexivity; try discriminate; try congruence.
Qed.

(** Scenario D: the second of two records carries the marker. *)
Lemma check_appointment_status_classifies_witness :
  let body := JObject [("contacts",
                JArray [JObject [("tags", JArray [JString "vip"])];
                        JObject [("tags",
                           JArray [JString "livekit_appointment_booked"])]])] in
  let w := Sample.world_replying (Answers (mkResponse 200 (Some body))) in
  snd (check_appointment_status "a@b.com" w) = [lookup_request w "a@b.com"] /\
  method (lookup_request w "a@b.com") = GET /\
  (fst (check_appointment_status "a@b.com" w) = Returns msg_booked
   <-> Spec.marked_booked body) /\
  (fst (check_appointment_status "a@b.com" w) = Returns msg_not_booked
   <-> ~ Spec.marked_booked body).
Proof.
  intros body w.
  apply (@check_appointment_status_classifies "a@b.com" w
           (mkResponse 200 (Some body)) body).
  - reflexivity.
  - unfold is_2xx. simpl. lia.
  - reflexivity.
  - exists [("contacts",
             JArray [JObject [("tags", JArray [JString "vip"])];
                     JObject [("tags",
                        JArray [JString "livekit_appointment_booked"])]])].
    split; [reflexivity | ]. right.
    exists [JObject [("tags", JArray [JString "vip"])];
            JObject [("tags", JArray [JString "livekit_appointment_booked"])]].
    split; [reflexivity | ].
    repeat constructor.
    + exists [("tags", JArray [JString "vip"])].
      split; [reflexivity | ]. right. eexists. reflexivity.
    + exists [("tags", JArray [JString "livekit_appointment_booked"])].
      split; [reflexivity | ]. right. eexists. reflexivity.
Defined.

(** C3, as stated, fails: a 2xx answer whose body is not JSON (an empty
    body, say) makes [response.json()] raise, and the tool returns its
    error message, which is neither of the two status messages. *)
Lemma check_appointment_status_2xx_without_json :
  let r := mkResponse 200 None in
  let w := Sample.world_replying (Answers r) in
  is_2xx r /\
  network w (lookup_request w "a@b.com") = Answers r /\
  check_appointment_status "a@b.com" w =
    (Returns msg_status_error, [lookup_request w "a@b.com"]) /\
  msg_status_error <> msg_booked /\
  msg_status_error <> msg_not_booked.
Proof.
  intros r w. unfold is_2xx. simpl.
  repeat split; try lia; try reflexivity; discriminate.
Qed.

(** C9, as amended.  When the lookup endpoint answers 2xx with a JSON
    object that has no [contacts] key, or whose [contacts] is a list of
    objects none of which has a [tags] key, [check_appointment_status]
    raises nothing: the missing field counts as the empty list and the
    tool returns the not-yet-booked message. *)
Theorem check_appointment_status_missing_fields
        (email : string) (w : world) (r : response)
        (d : list (string * json)) :
  network w (lookup_request w email) = Answers r ->
  is_2xx r ->
  decoded r = Some (JObject d) ->
  lookup "contacts" d = None \/
  (exists cs, lookup "contacts" d = Some (JArray cs) /\
              Forall (fun c => exists o, c = JObject o /\
                                         lookup "tags" o = None) cs) ->
  check_appointment_status email w =
    (Returns msg_not_booked, [lookup_request w email]).
Proof.
  intros Hnet H2xx Hbody Hmissing.
  rewrite check_appointment_status_runs, Hnet.
  rewrite (is_2xx_not_error H2xx), Hbody.
  unfold classify. cbn [get obind].
  destruct Hmissing as [Hc | (cs & Hc & Hcs)]; rewrite Hc.
  - reflexivity.
  - cbn [obind iter]. f_equal. clear Hc.
    induction Hcs as [ | c cs (o & -> & Ht) _ IH]; [reflexivity | ].
    cbn [scan_contacts get obind]. rewrite Ht.
    cbn [obind contains existsb]. exact IH.
Qed.

(** One record, without [tags]. *)
Lemma check_appointment_status_missing_fields_witness :
  let d := [("contacts", JArray [JObject [("email", JString "a@b.com")]])] in
  let w := Sample.world_replying (Answers (mkResponse 200 (Some (JObject d)))) in
  check_appointment_status "a@b.com" w =
    (Returns "The user has not yet booked an appointment. Please offer him help",
     [lookup_request w "a@b.com"]).
Proof.
  intros d w.
  apply (@check_appointment_status_missing_fields "a@b.com" w
           (mkResponse 200 (Some (JObject d))) d).
  - reflexivity.
  - unfold is_2xx. simpl. lia.
  - reflexivity.
  - right. exists [JObject [("email", JString "a@b.com")]].
    split; [reflexivity | ].
    constructor; [ | constructor].
    exists [("email", JString "a@b.com")]. split; reflexivity.
Defined.

(** C9, as stated, fails: a body need not be an object to lack the
    [contacts] key, and the entries of [contacts] need not be objects
    to lack a [tags] key.  On the empty JSON list as the body of a 200
    answer, [data.get] does not exist and the tool raises
    [AttributeError]; on an object whose [contacts] holds a number, it
    is [contact.get] that does not exist. *)
Lemma check_appointment_status_raises_without_contacts :
  let w1 := Sample.world_replying (Answers (mkResponse 200 (Some (JArray [])))) in
  let w2 := Sample.world_replying
              (Answers (mkResponse 200
                 (Some (JObject [("contacts", JArray [JInt 7])])))) in
  is_2xx (mkResponse 200 (Some (JArray []))) /\
  check_appointment_status "a@b.com" w1 =
    (Raises AttributeError, [lookup_request w1 "a@b.com"]) /\
  check_appointment_status "a@b.com" w2 =
    (Raises AttributeError, [lookup_request w2 "a@b.com"]).
Proof.
  intros w1 w2. unfold is_2xx. simpl.
  repeat split; try lia; reflexivity.
Qed.

(* ================================================================== *)
(** * Timeouts and missing parameters                                   *)
(* ================================================================== *)

(** C6, as amended.  Every HTTP request a tool issues is sent without a
    timeout (the default of [requests], [timeout=None]); it is bounded
    by nothing, and when the server never answers that request the tool
    invocation never completes. *)
Theorem tools_send_without_timeout
        (str : json -> string) (i : Tools.invocation) (w : world)
        (req : request) :
  In req (snd (Tools.execute str i w)) ->
  timeout req = None /\
  (network w req = Silent -> fst (Tools.execute str i w) = Hangs).
Proof.
  destruct i as [email name | email slot | email name | email];
    cbn [Tools.execute].
  - rewrite save_candidate_details_runs. cbn [fst snd].
    intros [<- | []]. split; [reflexivity | intros ->; reflexivity].
  - rewrite schedule_interview_runs. cbn [fst snd].
    intros [<- | []]. split; [reflexivity | intros ->; reflexivity].
  - rewrite book_appointment_runs.
    destruct (re_match email_pattern email); cbn [fst snd].
    + intros [<- | []]. split; [reflexivity | intros ->; reflexivity].
    + intros [].
  - rewrite check_appointment_status_runs. cbn [fst snd].
    intros [<- | []]. split; [reflexivity | intros ->; reflexivity].
Qed.

(** [schedule_interview] against a server that never answers. *)
Lemma tools_send_without_timeout_witness :
  let w := Sample.world_replying Silent in
  let req := interview_request w "a@b.com" "2025-01-18T10:30:00+00:00" in
  timeout req = None /\
  (network w req = Silent ->
   fst (Tools.execute Sample.str
          (Tools.ScheduleInterview "a@b.com" "2025-01-18T10:30:00+00:00") w)
   = Hangs).
Proof.
  intros w req.
  apply (@tools_send_without_timeout Sample.str
           (Tools.ScheduleInterview "a@b.com" "2025-01-18T10:30:00+00:00")
           w req).
  simpl. left. reflexivity.
Defined.

(** C6, as stated, fails: the request of [book_appointment] carries no
    timeout, and against a server that never answers the invocation
    waits for ever. *)
Lemma book_appointment_waits_for_ever :
  let w := Sample.world_replying Silent in
  timeout (webhook_request w "a@b.com" "Jo") = None /\
  book_appointment "a@b.com" "Jo" w =
    (Hangs, [webhook_request w "a@b.com" "Jo"]).
Proof.
  intro w. split; reflexivity.
Qed.

Lemma bind_params_missing (params : list string) (arguments : Call.arguments_t)
      (p : string) :
  In p params -> lookup p arguments = None ->
  Call.bind_params params arguments = None.
Proof.
  induction params as [ | q params IH]; intros Hin Hp; [destruct Hin | ].
  simpl. destruct Hin as [-> | Hin].
  - rewrite Hp. reflexivity.
  - rewrite (IH Hin Hp). destruct (lookup q arguments); reflexivity.
Qed.

Lemma keyword_call_missing {A} (params : list string)
      (body : list string -> io A) (arguments : Call.arguments_t)
      (p : string) (w : world) :
  In p params -> lookup p arguments = None ->
  Call.keyword_call params body arguments w = (Raises TypeError, []).
Proof.
  intros Hin Hp. unfold Call.keyword_call.
  destruct (existsb _ arguments); [reflexivity | ].
  rewrite (@bind_params_missing params arguments p Hin Hp). reflexivity.
Qed.

(** C7, as amended.  A tool call whose arguments lack a required
    parameter performs no external I/O: the call itself raises
    [TypeError] before the body of the tool runs, so no HTTP request is
    attempted, and no result string is returned. *)
Theorem missing_parameter_raises_before_io
        (str : json -> string) (arguments : Call.arguments_t)
        (p : string) (w : world) :
  lookup p arguments = None ->
  (In p ["email"; "name"] ->
   call_save_candidate_details str arguments w = (Raises TypeError, [])) /\
  (In p ["experience"; "skills"; "previous_companies"] ->
   call_ask_hr_questions arguments w = (Raises TypeError, [])) /\
  (In p ["email"; "slot"] ->
   call_schedule_interview arguments w = (Raises TypeError, [])) /\
  (In p ["email"; "name"] ->
   call_book_appointment arguments w = (Raises TypeError, [])).
Proof.
  intro Hp. repeat split; intro Hin;
    unfold call_save_candidate_details, call_ask_hr_questions,
           call_schedule_interview, call_book_appointment;
    apply keyword_call_missing with (p := p); assumption.
Qed.

(** [book_appointment] called without [email]. *)
Lemma missing_parameter_raises_before_io_witness :
  let w := Sample.world_replying (Answers (mkResponse 200 None)) in
  call_book_appointment [("name", "Jo")] w = (Raises TypeError, []).
Proof.
  intro w.
  refine (proj2 (proj2 (proj2
    (@missing_parameter_raises_before_io Sample.str [("name", "Jo")]
       "email" w _))) _).
  - reflexivity.
  - simpl. left. reflexivity.
Defined.

(** C7, as stated, fails: [save_candidate_details] called without
    [name] issues no request, but it returns no failure result either;
    the call raises [TypeError]. *)
Lemma save_candidate_details_without_name :
  let w := Sample.world_replying
             (Answers (mkResponse 200 (Some Sample.candidate_42))) in
  call_save_candidate_details Sample.str [("email", "a@b.com")] w =
    (Raises TypeError, []).
Proof.
  intro w. reflexivity.
Qed.

(* ================================================================== *)
(** * Follow-ups                                                        *)
(* ================================================================== *)

(** C4, as amended.  [on_function_calls_finished] schedules the delayed
    status check for the first finished call whenever the arguments of
    that call carry a non-empty [email] (and no non-empty [user_msg]),
    whatever the call returned or raised: a failed call is followed up
    like a successful one. *)
Theorem follow_up_ignores_the_result
        (info : FunctionCallInfo) (email : string)
        (outcome_text : option string) (raised : option exn)
        (others : list CalledFunction) :
  truthy (lookup "user_msg" (arguments info)) = false ->
  lookup "email" (arguments info) = Some email ->
  email <> "" ->
  on_function_calls_finished
    (mkCalledFunction info outcome_text raised :: others) =
    (Returns tt, [FollowUp email]).
Proof.
  intros Hmsg Hemail Hne. unfold on_function_calls_finished.
  cbn [call_info]. rewrite Hmsg, Hemail.
  destruct email; [congruence | reflexivity].
Qed.

(** A booking whose webhook call raised is followed up all the same. *)
Lemma follow_up_ignores_the_result_witness :
  on_function_calls_finished
    [mkCalledFunction
       (mkFunctionCallInfo "book_appointment"
          [("email", "a@b.com"); ("name", "Jo")])
       None (Some (RequestException ConnectionError))] =
    (Returns tt, [FollowUp "a@b.com"]).
Proof.
  apply (@follow_up_ignores_the_result
           (mkFunctionCallInfo "book_appointment"
              [("email", "a@b.com"); ("name", "Jo")])
           "a@b.com" None (Some (RequestException ConnectionError)) []).
  - reflexivity.
  - reflexivity.
  - discriminate.
Defined.

(** C4, as stated, fails: [book_appointment] rejects the address
    [bad-email] without calling the webhook, and the handler still
    schedules the status check for that call. *)
Lemma follow_up_after_rejected_booking :
  let w := Sample.world_replying Fails in
  book_appointment "bad-email" "Jo" w = (Returns msg_email_incorrect, []) /\
  on_function_calls_finished
    [Sample.booking_call "bad-email" msg_email_incorrect] =
    (Returns tt, [FollowUp "bad-email"]) /\
  sleeping (step w initial
              (FunctionCallsFinished
                 [Sample.booking_call "bad-email" msg_email_incorrect])) =
    [("bad-email", 20)].
Proof.
  intro w. repeat split; reflexivity.
Qed.



Lemma wake_fields (w : world) (s : session) (email : string) :
  wire (wake w s email) = (wire s ++ [lookup_request w email])%list /\
  sleeping (wake w s email) = sleeping s /\
  connected (wake w s email) = connected s /\
  entrypoint_returned (wake w s email) = entrypoint_returned s.
Proof.
  unfold wake. rewrite check_appointment_status_runs.
  match goal with
  | |- context [match ?o with Returns _ => _ | Raises _ => _ | Hangs => _ end] =>
      destruct o
  end; repeat split; reflexivity.
Qed.

Lemma wake_messages (w : world) (s : session) (email : string) :
  messages (wake w s email) = (messages s ++ Behaviour.said w email)%list.
Proof.
  unfold wake, Behaviour.said.
  destruct (check_appointment_status email w) as [o sent].
  destruct o; cbn [fst messages answer]; try reflexivity;
    rewrite app_nil_r; reflexivity.
Qed.

Lemma said_by_user (w : world) (email : string) :
  Forall (fun m => role m = "user") (Behaviour.said w email).
Proof.
  unfold Behaviour.said.
  destruct (fst (check_appointment_status email w)); repeat constructor.
Qed.

(** What waking in turn keeps, blocked or not. *)
Lemma wake_in_turn_keeps (w : world) (now : list (string * nat)) :
  forall s,
    let s' := fst (wake_in_turn w now s) in
    sleeping s' = sleeping s /\
    connected s' = connected s /\
    entrypoint_returned s' = entrypoint_returned s /\
    exists added, messages s' = (messages s ++ added)%list /\
                  Forall (fun m => role m = "user") added.
Proof.
  induction now as [ | t now IH]; intro s; cbn [wake_in_turn].
  - cbn. repeat split. exists []. rewrite app_nil_r. split; constructor.
  - destruct (wake_fields w s (fst t)) as (_ & Hs & Hc & He).
    assert (Hm := wake_messages w s (fst t)).
    destruct (stuck w (fst t)); cbn zeta.
    + cbn [fst]. rewrite Hs, Hc, He, Hm. repeat split.
      eexists. split; [reflexivity | apply said_by_user].
    + destruct (IH (wake w s (fst t))) as (IHs & IHc & IHe & added & IHm & Hu).
      cbv zeta in *. rewrite IHs, IHc, IHe, IHm, Hs, Hc, He, Hm.
      repeat split. exists (Behaviour.said w (fst t) ++ added)%list.
      rewrite <- app_assoc. split; [reflexivity | ].
      apply Forall_app. split; [apply said_by_user | exact Hu].
Qed.

(** With no check left waiting, the follow-ups due wake one after the
    other. *)
Lemma wake_in_turn_calm (w : world) (now : list (string * nat)) :
  Forall (fun t => stuck w (fst t) = false) now ->
  forall s,
    snd (wake_in_turn w now s) = false /\
    wire (fst (wake_in_turn w now s)) =
      (wire s ++ map (Behaviour.check_of w) now)%list /\
    messages (fst (wake_in_turn w now s)) =
      (messages s ++ flat_map (fun t => Behaviour.said w (fst t)) now)%list.
Proof.
  induction 1 as [ | t now Ht _ IH]; intro s;
    cbn [wake_in_turn map flat_map].
  - cbn. rewrite !app_nil_r. auto.
  - rewrite Ht. destruct (IH (wake w s (fst t))) as (Hb & Hw & Hm).
    rewrite Hb, Hw, Hm, wake_messages.
    destruct (wake_fields w s (fst t)) as (Hw1 & _). rewrite Hw1.
    rewrite <- !app_assoc. repeat split.
Qed.

(** What a second always does. *)
Lemma second_keeps (w : world) (s : session) :
  sleeping (second w s) =
    map Behaviour.one_second_less
        (filter (fun t => negb (due t)) (sleeping s)) /\
  connected (second w s) = connected s /\
  (blocks w s Second = true ->
   entrypoint_returned (second w s) = entrypoint_returned s) /\
  (blocks w s Second = false ->
   entrypoint_returned (second w s) =
     entrypoint_returned s || negb (connected s)) /\
  exists added, messages (second w s) = (messages s ++ added)%list /\
                Forall (fun m => role m = "user") added.
Proof.
  unfold second, blocks, second_outcome.
  match goal with
  | |- context [wake_in_turn w ?now ?s1] =>
      destruct (wake_in_turn_keeps w now s1) as (Hs & Hc & He & added & Hm & Hu);
      destruct (wake_in_turn w now s1) as [s2 blocked]
  end.
  cbv zeta in *. cbn [fst sleeping connected entrypoint_returned messages] in *.
  destruct blocked; cbn [fst snd sleeping connected entrypoint_returned messages];
    rewrite ?Hs, ?Hc, ?He, ?Hm;
    (repeat split; try discriminate; try reflexivity);
    exists added; (split; [reflexivity | exact Hu]).
Qed.

(** What a second does when no check due is left waiting. *)
Lemma second_fields (w : world) (s : session) :
  Forall (fun t => stuck w (fst t) = false) (filter due (sleeping s)) ->
  blocks w s Second = false /\
  wire (second w s) =
    (wire s ++ map (Behaviour.check_of w) (filter due (sleeping s)))%list /\
  messages (second w s) =
    (messages s ++ flat_map (fun t => Behaviour.said w (fst t))
                            (filter due (sleeping s)))%list.
Proof.
  intro H. unfold second, blocks, second_outcome.
  match goal with
  | |- context [wake_in_turn w ?now ?s1] =>
      destruct (@wake_in_turn_calm w now H s1) as (Hb & Hw & Hm);
      destruct (wake_in_turn w now s1) as [s2 blocked]
  end.
  cbn [fst snd wire messages] in *. subst blocked.
  cbn [fst snd wire messages]. auto.
Qed.

Lemma run_one (w : world) (s : session) (e : event) :
  run w s [e] = step w s e.
Proof.
  cbn [run]. destruct (blocks w s e); reflexivity.
Qed.

(** While the loop is alive, a run can be cut in two. *)
Lemma run_app (w : world) (first rest : list event) :
  forall s,
    alive w s first = true ->
    run w s (first ++ rest) = run w (run w s first) rest /\
    alive w s (first ++ rest) = alive w (run w s first) rest.
Proof.
  induction first as [ | e first IH]; intros s H; cbn [app run alive] in *.
  - split; reflexivity.
  - apply andb_prop in H. destruct H as (Hb & Ha).
    apply negb_true_iff in Hb. rewrite Hb. cbn [negb andb].
    apply IH. exact Ha.
Qed.










(** A status check left waiting blocks everything behind it.  Two
    bookings are reported in the same second and the lookup endpoint is
    silent on the first address: at the twentieth second the first
    check goes out and never comes back, the check for the second
    address is never sent, and the loss of the connection that follows
    is never noticed, so [entrypoint] does not return. *)
Lemma silent_check_blocks_the_loop :
  let w := Sample.world_silent_on "https://crm.test/contacts?email=a@b.com"
             (Answers (mkResponse 200 (Some (JObject [])))) in
  let final :=
    run w initial
      ([FunctionCallsFinished
          [Sample.booking_call "a@b.com" (msg_booking_sent "a@b.com")];
        FunctionCallsFinished
          [Sample.booking_call "c@d.org" (msg_booking_sent "c@d.org")]]
       ++ repeat Second 20 ++ ConnectionLost :: repeat Second 5) in
  wire final = [lookup_request w "a@b.com"] /\
  messages final = messages initial /\
  entrypoint_returned final = false.
Proof.
  intros w final. vm_compute. repeat split; reflexivity.
Qed.

(* ================================================================== *)
(** * Further properties of the tools                                   *)
(* ================================================================== *)

Lemma error_status_range (r : response) :
  is_error_status r = true <-> (400 <= status_code r < 600)%Z.
Proof.
  unfold is_error_status. rewrite andb_true_iff, Z.leb_le, Z.ltb_lt.
  reflexivity.
Qed.

Lemma begins_match (email : string) :
  Spec.BeginsWithEmail email -> re_match email_pattern email = true.
Proof.
  apply EmailFacts.re_match_email.
Qed.

Lemma format_begins (email : string) :
  Spec.EmailFormat email -> Spec.BeginsWithEmail email.
Proof.
  intro H. exists email, "". split; [ | exact H].
  clear H. induction email as [ | c email IH]; [reflexivity | ].
  simpl. rewrite <- IH. reflexivity.
Qed.

(** X1.  A tool invocation sends exactly one HTTP request, whatever the
    reply (there is no retry), except that [book_appointment] sends
    none when the address does not pass its check. *)
Theorem tools_send_one_request
        (str : json -> string) (i : Tools.invocation) (w : world) :
  snd (Tools.execute str i w) = [Behaviour.request_of w i] \/
  (exists email name,
      i = Tools.BookAppointment email name /\
      ~ Spec.BeginsWithEmail email /\
      snd (Tools.execute str i w) = []).
Proof.
  destruct i as [email name | email slot | email name | email];
    cbn [Tools.execute Behaviour.request_of].
  - left. rewrite save_candidate_details_runs. reflexivity.
  - left. rewrite schedule_interview_runs. reflexivity.
  - rewrite book_appointment_runs.
    destruct (re_match email_pattern email) eqn:E.
    + left. reflexivity.
    + right. exists email, name. split; [reflexivity | split; [ | reflexivity] ].
      intro B. apply begins_match in B. congruence.
  - left. rewrite check_appointment_status_runs. reflexivity.
Qed.

(** X2.  When the request of a tool meets a connection failure or an
    answer with a status from 400 to 599, the tool returns its own
    fixed apology and raises nothing. *)
Theorem tools_turn_http_failure_into_text
        (str : json -> string) (i : Tools.invocation) (w : world)
        (req : request) :
  In req (snd (Tools.execute str i w)) ->
  network w req = Fails \/
  (exists r, network w req = Answers r /\ (400 <= status_code r < 600)%Z) ->
  fst (Tools.execute str i w) = Returns (Behaviour.failure_message i).
Proof.
  intros Hreq Hfail.
  assert (Hnet : match network w req with
                 | Answers r => is_error_status r = true
                 | Fails => True
                 | Silent => False
                 end).
  { destruct Hfail as [-> | (r & -> & Hr)]; [exact I | ].
    apply error_status_range. exact Hr. }
  clear Hfail. revert Hreq.
  destruct i as [email name | email slot | email name | email];
    cbn [Tools.execute Behaviour.failure_message].
  - rewrite save_candidate_details_runs. cbn [fst snd].
    intros [<- | []]. destruct (network w _) as [r | | ];
      [rewrite Hnet; reflexivity | reflexivity | destruct Hnet].
  - rewrite schedule_interview_runs. cbn [fst snd].
    intros [<- | []]. destruct (network w _) as [r | | ];
      [rewrite Hnet; reflexivity | reflexivity | destruct Hnet].
  - rewrite book_appointment_runs.
    destruct (re_match email_pattern email); cbn [fst snd]; [ | intros [] ].
    intros [<- | []]. destruct (network w _) as [r | | ];
      [rewrite Hnet; reflexivity | reflexivity | destruct Hnet].
  - rewrite check_appointment_status_runs. cbn [fst snd].
    intros [<- | []]. destruct (network w _) as [r | | ];
      [rewrite Hnet; reflexivity | reflexivity | destruct Hnet].
Qed.

(** A 503 answer to [check_appointment_status]. *)
Lemma tools_turn_http_failure_into_text_witness :
  let w := Sample.world_replying (Answers (mkResponse 503 None)) in
  fst (Tools.execute Sample.str (Tools.CheckAppointmentStatus "a@b.com") w) =
    Returns "Error checking the appointment status.".
Proof.
  intro w.
  apply (@tools_turn_http_failure_into_text Sample.str
           (Tools.CheckAppointmentStatus "a@b.com") w
           (lookup_request w "a@b.com")).
  - simpl. left. reflexivity.
  - right. exists (mkResponse 503 None). split; [reflexivity | simpl; lia].
Defined.

(** X3.  [book_appointment] reports success exactly when the address
    passes the check and the webhook answers with a status outside
    400..599: [raise_for_status] lets every other status through, so a
    3xx or 1xx answer counts as a success too. *)
Theorem book_appointment_success_iff
        (email name : string) (w : world) :
  fst (book_appointment email name w) = Returns (msg_booking_sent email) <->
  Spec.BeginsWithEmail email /\
  exists r, network w (webhook_request w email name) = Answers r /\
            ~ (400 <= status_code r < 600)%Z.
Proof.
  rewrite book_appointment_runs, <- EmailFacts.re_match_email.
  destruct (re_match email_pattern email); cbn [fst].
  - destruct (network w _) as [r | | ].
    + destruct (is_error_status r) eqn:E.
      * split; [discriminate | ].
        intros (_ & r' & Hr & Hn). injection Hr as <-.
        apply error_status_range in E. contradiction.
      * split; [ | reflexivity]. intros _. split; [reflexivity | ].
        exists r. split; [reflexivity | ].
        intro H. apply error_status_range in H. congruence.
    + split; [discriminate | intros (_ & r & Hr & _); discriminate Hr].
    + split; [discriminate | intros (_ & r & Hr & _); discriminate Hr].
  - split; [discriminate | intros (H & _); discriminate H].
Qed.

(** X4.  [book_appointment] answers that the address seems incorrect,
    without calling the webhook, exactly for the strings that do not
    begin with an address local-part [@] domain [.] tld. *)
Theorem book_appointment_rejects_iff
        (email name : string) (w : world) :
  book_appointment email name w = (Returns msg_email_incorrect, []) <->
  ~ Spec.BeginsWithEmail email.
Proof.
  rewrite book_appointment_runs, <- EmailFacts.re_match_email.
  destruct (re_match email_pattern email).
  - split; [discriminate | intro H; exfalso; apply H; reflexivity].
  - split; [intros _; discriminate | reflexivity].
Qed.

(** X5.  An address in the email format is never rejected: the webhook
    is called with the address and the name unchanged in the JSON
    body. *)
Theorem well_formed_address_reaches_webhook
        (email name : string) (w : world) :
  Spec.EmailFormat email ->
  snd (book_appointment email name w) = [webhook_request w email name] /\
  json_body (webhook_request w email name) =
    Some (JObject [("email", JString email); ("name", JString name)]).
Proof.
  intro H. rewrite book_appointment_runs.
  rewrite (begins_match (format_begins H)). split; reflexivity.
Qed.

(** The address [jo@example.org]. *)
Lemma well_formed_address_reaches_webhook_witness :
  let w := Sample.world_replying Fails in
  snd (book_appointment "jo@example.org" "Jo" w) =
    [webhook_request w "jo@example.org" "Jo"] /\
  json_body (webhook_request w "jo@example.org" "Jo") =
    Some (JObject [("email", JString "jo@example.org");
                   ("name", JString "Jo")]).
Proof.
  intro w.
  apply (@well_formed_address_reaches_webhook "jo@example.org" "Jo" w).
  exists "jo", "example", "org". split; [reflexivity | ].
  repeat split; try discriminate;
    simpl; intuition discriminate.
Defined.

(** X7.  When the endpoint answers with a status outside 400..599 and
    a JSON object whose [candidate] is an object with an [id],
    [save_candidate_details] returns its confirmation with that id
    rendered by [str], whatever the type of the id and whatever else
    the body holds. *)
Theorem save_candidate_details_reads_id
        (str : json -> string) (email name : string) (w : world)
        (r : response) (d c : list (string * json)) (v : json) :
  network w (candidate_request w email name) = Answers r ->
  is_error_status r = false ->
  decoded r = Some (JObject d) ->
  lookup "candidate" d = Some (JObject c) ->
  lookup "id" c = Some v ->
  save_candidate_details str email name w =
    (Returns (msg_candidate_saved (str v)), [candidate_request w email name]).
Proof.
  intros Hnet Hst Hbody Hc Hid.
  rewrite save_candidate_details_runs, Hnet, Hst, Hbody.
  unfold candidate_reply. cbn [getitem obind]. rewrite Hc.
  cbn [getitem obind]. rewrite Hid. reflexivity.
Qed.

(** A 201 answer whose id is the boolean [true]. *)
Lemma save_candidate_details_reads_id_witness :
  let body := JObject [("ok", JBool true);
                       ("candidate", JObject [("name", JString "Jo");
                                              ("id", JBool true)])] in
  let w := Sample.world_replying (Answers (mkResponse 201 (Some body))) in
  save_candidate_details Sample.str "a@b.com" "Jo" w =
    (Returns "Candidate details saved with ID: True.",
     [candidate_request w "a@b.com" "Jo"]).
Proof.
  intros body w.
  apply (@save_candidate_details_reads_id Sample.str "a@b.com" "Jo" w
           (mkResponse 201 (Some body))
           [("ok", JBool true);
            ("candidate", JObject [("name", JString "Jo");
                                   ("id", JBool true)])]
           [("name", JString "Jo"); ("id", JBool true)]
           (JBool true)); reflexivity.
Defined.

(** Is the value a dict? *)
Lemma not_object_getitem (v : json) (key : string) :
  (forall d, v <> JObject d) -> getitem v key = Raises TypeError.
Proof.
  intro H. destruct v; try reflexivity. exfalso. exact (H _ eq_refl).
Qed.

(** X8.  When the decoded body is not a JSON object, or its [candidate]
    is present but is not an object (a string, a list, [null], ...),
    the subscript in [save_candidate_details] is a [TypeError], which
    leaves the tool after the POST has been made. *)
Theorem save_candidate_details_raises_TypeError
        (str : json -> string) (email name : string) (w : world)
        (r : response) (body : json) :
  network w (candidate_request w email name) = Answers r ->
  is_error_status r = false ->
  decoded r = Some body ->
  (forall d, body <> JObject d) \/
  (exists d v, body = JObject d /\ lookup "candidate" d = Some v /\
               forall c, v <> JObject c) ->
  save_candidate_details str email name w =
    (Raises TypeError, [candidate_request w email name]).
Proof.
  intros Hnet Hst Hbody Hshape.
  rewrite save_candidate_details_runs, Hnet, Hst, Hbody.
  unfold candidate_reply.
  destruct Hshape as [H | (d & v & -> & Hc & H)].
  - rewrite (not_object_getitem _ H). reflexivity.
  - cbn [getitem obind]. rewrite Hc. cbn [obind].
    rewrite (not_object_getitem _ H). reflexivity.
Qed.

(** The body whose [candidate] is [null]. *)
Lemma save_candidate_details_raises_TypeError_witness :
  let body := JObject [("candidate", JNull)] in
  let w := Sample.world_replying (Answers (mkResponse 200 (Some body))) in
  save_candidate_details Sample.str "a@b.com" "Jo" w =
    (Raises TypeError, [candidate_request w "a@b.com" "Jo"]).
Proof.
  intros body w.
  apply (@save_candidate_details_raises_TypeError Sample.str "a@b.com" "Jo" w
           (mkResponse 200 (Some body)) body).
  - reflexivity.
  - reflexivity.
  - reflexivity.
  - right. exists [("candidate", JNull)], JNull.
    split; [reflexivity | split; [reflexivity | discriminate] ].
Defined.

(** X9.  [schedule_interview] checks neither the address nor the slot:
    it reports success, with the slot text unchanged in the message,
    exactly when the endpoint answers with a status outside 400..599. *)
Theorem schedule_interview_success_iff
        (email slot : string) (w : world) :
  fst (schedule_interview email slot w) =
    Returns (msg_interview_scheduled slot) <->
  exists r, network w (interview_request w email slot) = Answers r /\
            ~ (400 <= status_code r < 600)%Z.
Proof.
  rewrite schedule_interview_runs. cbn [fst].
  destruct (network w _) as [r | | ].
  - destruct (is_error_status r) eqn:E.
    + split; [discriminate | ].
      intros (r' & Hr & Hn). injection Hr as <-.
      apply error_status_range in E. contradiction.
    + split; [ | reflexivity]. intros _.
      exists r. split; [reflexivity | ].
      intro H. apply error_status_range in H. congruence.
  - split; [discriminate | intros (r & Hr & _); discriminate Hr].
  - split; [discriminate | intros (r & Hr & _); discriminate Hr].
Qed.

Lemma scan_contacts_messages (cs : list json) (m : string) :
  scan_contacts cs = Returns m -> m = msg_booked \/ m = msg_not_booked.
Proof.
  induction cs as [ | c cs IH]; simpl.
  - intro H. injection H as <-. right. reflexivity.
  - destruct (get c "tags" (JArray [])) as [tags | | ]; simpl;
      try discriminate.
    destruct (contains booked_tag tags) as [ [ | ] | | ]; simpl;
      try discriminate.
    + intro H. injection H as <-. left. reflexivity.
    + exact IH.
Qed.

Lemma classify_messages (data : json) (m : string) :
  classify data = Returns m -> m = msg_booked \/ m = msg_not_booked.
Proof.
  unfold classify.
  destruct (get data "contacts" (JArray [])) as [contacts | | ]; simpl;
    try discriminate.
  destruct (iter contacts) as [items | | ]; simpl; try discriminate.
  apply scan_contacts_messages.
Qed.

(** X10.  [check_appointment_status] returns one of three strings and
    no other.  It is the error message exactly when the connection
    failed, the status is in 400..599, or the body is not JSON. *)
Theorem check_appointment_status_messages
        (email : string) (w : world) :
  (forall m, fst (check_appointment_status email w) = Returns m ->
             m = msg_booked \/ m = msg_not_booked \/ m = msg_status_error) /\
  (fst (check_appointment_status email w) = Returns msg_status_error <->
   network w (lookup_request w email) = Fails \/
   exists r, network w (lookup_request w email) = Answers r /\
             ((400 <= status_code r < 600)%Z \/ decoded r = None)).
Proof.
  rewrite check_appointment_status_runs. cbn [fst].
  destruct (network w _) as [r | | ].
  - destruct (is_error_status r) eqn:E.
    + split.
      * intros m H. injection H as <-. auto.
      * split; [ | reflexivity]. intros _. right. exists r.
        split; [reflexivity | left; apply error_status_range; exact E].
    + destruct (decoded r) as [data | ] eqn:D.
      * split.
        -- intros m H. apply classify_messages in H. tauto.
        -- split.
           ++ intro H. apply classify_messages in H.
              destruct H as [H | H]; discriminate H.
           ++ intros [H | (r' & Hr & [H | H])]; try discriminate H.
              ** injection Hr as <-. apply error_status_range in H. congruence.
              ** injection Hr as <-. congruence.
      * split.
        -- intros m H. injection H as <-. auto.
        -- split; [ | reflexivity]. intros _. right. exists r.
           split; [reflexivity | right; exact D].
  - split.
    + intros m H. injection H as <-. auto.
    + split; [ | reflexivity]. intros _. left. reflexivity.
  - split; [discriminate | ].
    split; [discriminate | ].
    intros [H | (r & Hr & _)]; [discriminate H | discriminate Hr].
Qed.

Lemma is_prefix_spec (p s : string) :
  is_prefix p s = true <-> exists b, s = p ++ b.
Proof.
  revert s. induction p as [ | c p IH]; intro s; simpl.
  - split; [intros _; exists s; reflexivity | reflexivity].
  - destruct s as [ | d s].
    + split; [discriminate | intros (b & H); discriminate H].
    + rewrite andb_true_iff, Ascii.eqb_eq, IH. split.
      * intros (-> & b & ->). exists b. reflexivity.
      * intros (b & H). injection H as -> ->. split; [reflexivity | ].
        exists b. reflexivity.
Qed.

(** The substring test of [in] on two strings. *)
Lemma is_substring_spec (needle s : string) :
  is_substring needle s = true <-> Spec.occurs_in needle s.
Proof.
  unfold Spec.occurs_in.
  induction s as [ | c s IH]; simpl; rewrite orb_true_iff, is_prefix_spec.
  - split.
    + intros [(b & H) | H]; [ | discriminate H]. exists "", b. exact H.
    + intros (a & b & H). left. destruct a; [ | discriminate H].
      exists b. exact H.
  - rewrite IH. split.
    + intros [(b & H) | (a & b & ->)].
      * exists "", b. exact H.
      * exists (String c a), b. reflexivity.
    + intros (a & b & H). destruct a as [ | d a].
      * left. exists b. exact H.
      * right. injection H as <- ->. exists a, b. reflexivity.
Qed.

Lemma shows_marker_found (contact : json) :
  Behaviour.shows_marker contact ->
  obind (get contact "tags" (JArray [])) (contains booked_tag) = Returns true.
Proof.
  intros (o & -> & [(ts & Ht & Hin) | [(s & Ht & Hs) | (m & Ht & Hin)] ]);
    cbn [get obind]; rewrite Ht; cbn [obind contains]; f_equal.
  - apply has_tag_In. exact Hin.
  - apply is_substring_spec. exact Hs.
  - apply existsb_exists. apply in_map_iff in Hin.
    destruct Hin as (kv & Hk & Hin). exists kv. split; [exact Hin | ].
    rewrite Hk. apply String.eqb_refl.
Qed.

Lemma scan_contacts_first_marker (pre rest : list json) (contact : json) :
  Forall Spec.record_shape pre ->
  Behaviour.shows_marker contact ->
  scan_contacts (pre ++ contact :: rest) = Returns msg_booked.
Proof.
  intros Hpre Hc. induction Hpre as [ | c pre Hshape _ IH].
  - cbn [app scan_contacts].
    assert (H := shows_marker_found Hc). unfold obind in *.
    destruct (get contact "tags" (JArray [])) as [tags | | ];
      try discriminate H.
    rewrite H. reflexivity.
  - destruct Hshape as (d & -> & [Ht | (ts & Ht)]);
      cbn [app scan_contacts get obind]; rewrite Ht; cbn [obind contains].
    + exact IH.
    + destruct (existsb (str_eq booked_tag) ts); [reflexivity | exact IH].
Qed.

(** X11.  The status check reports a booking as soon as one record
    shows the marker, provided the records before it have the expected
    shape: the loop returns there, and what follows in the list is
    never looked at (it may be malformed).  A record shows the marker
    also when its [tags] is a string that merely contains the marker as
    a piece of text, or an object with the marker as a key. *)
Theorem check_appointment_status_first_marker
        (email : string) (w : world) (r : response)
        (d : list (string * json)) (pre rest : list json) (contact : json) :
  network w (lookup_request w email) = Answers r ->
  is_error_status r = false ->
  decoded r = Some (JObject d) ->
  lookup "contacts" d = Some (JArray (pre ++ contact :: rest)) ->
  Forall Spec.record_shape pre ->
  Behaviour.shows_marker contact ->
  check_appointment_status email w =
    (Returns msg_booked, [lookup_request w email]).
Proof.
  intros Hnet Hst Hbody Hc Hpre Hmark.
  rewrite check_appointment_status_runs, Hnet, Hst, Hbody.
  unfold classify. cbn [get obind]. rewrite Hc. cbn [obind iter].
  rewrite (scan_contacts_first_marker rest Hpre Hmark). reflexivity.
Qed.

(** A record whose [tags] is one string, followed by a number. *)
Lemma check_appointment_status_first_marker_witness :
  let contact :=
    JObject [("tags", JString "not_livekit_appointment_booked_yet")] in
  let d := [("contacts", JArray [JObject []; contact; JInt 7])] in
  let w := Sample.world_replying (Answers (mkResponse 200 (Some (JObject d)))) in
  check_appointment_status "a@b.com" w =
    (Returns "The user has successfully booked the appointment.",
     [lookup_request w "a@b.com"]).
Proof.
  intros contact d w.
  apply (@check_appointment_status_first_marker "a@b.com" w
           (mkResponse 200 (Some (JObject d))) d
           [JObject []] [JInt 7] contact).
  - reflexivity.
  - reflexivity.
  - reflexivity.
  - reflexivity.
  - constructor; [ | constructor].
    exists []. split; [reflexivity | left; reflexivity].
  - exists [("tags", JString "not_livekit_appointment_booked_yet")].
    split; [reflexivity | ]. right. left.
    exists "not_livekit_appointment_booked_yet". split; [reflexivity | ].
    exists "not_", "_yet". reflexivity.
Defined.

(* ================================================================== *)
(** * Further properties of a session                                   *)
(* ================================================================== *)

Lemma create_tasks_fields (tasks : list task) :
  forall s,
    let s' := fold_left create_task tasks s in
    (exists added, messages s' = (messages s ++ added)%list /\
                   Forall (fun m => role m = "user") added) /\
    connected s' = connected s /\
    entrypoint_returned s' = entrypoint_returned s /\
    wire s' = wire s.
Proof.
  induction tasks as [ | t tasks IH]; intro s; cbn [fold_left].
  - repeat split. exists []. rewrite app_nil_r. split; constructor.
  - destruct (IH (create_task s t)) as ((added & Hm & Hu) & Hc & He & Hw).
    cbv zeta in *. rewrite Hm, Hc, He, Hw.
    destruct t as [text | email]; cbn [create_task answer messages connected
                                       entrypoint_returned wire];
      repeat split.
    + exists (mkChatMessage "user" text :: added).
      rewrite <- app_assoc. split; [reflexivity | ].
      constructor; [reflexivity | exact Hu].
    + exists added. split; [reflexivity | exact Hu].
Qed.

Lemma step_appends_messages (w : world) (s : session) (e : event) :
  exists added, messages (step w s e) = (messages s ++ added)%list /\
                Forall (fun m => role m = "user") added.
Proof.
  destruct e as [called | message | | ]; cbn [step].
  - apply create_tasks_fields.
  - apply create_tasks_fields.
  - exists []. rewrite app_nil_r. split; [reflexivity | constructor].
  - apply second_keeps.
Qed.

(** X15.  The chat context only grows: whatever the events, the
    messages a session had stay where they were, in order (the system
    prompt stays first), and everything a handler or a follow-up adds
    is a user message. *)
Theorem chat_context_only_grows
        (w : world) (events : list event) (s : session) :
  exists added,
    messages (run w s events) = (messages s ++ added)%list /\
    Forall (fun m => role m = "user") added.
Proof.
  revert s. induction events as [ | e events IH]; intro s.
  - exists []. cbn. rewrite app_nil_r. split; [reflexivity | constructor].
  - cbn [run].
    destruct (step_appends_messages w s e) as (first & Hf & Huf).
    destruct (blocks w s e).
    + exists first. split; assumption.
    + destruct (IH (step w s e)) as (later & Hl & Hul).
      exists (first ++ later)%list. rewrite Hl, Hf, <- app_assoc.
      split; [reflexivity | ]. apply Forall_app. split; assumption.
Qed.

Lemma filter_none {A} (f : A -> bool) (l : list A) :
  Forall (fun x => f x = false) l -> filter f l = [].
Proof.
  induction 1 as [ | x l Hx _ IH]; simpl; [reflexivity | ].
  rewrite Hx. exact IH.
Qed.

Lemma filter_all {A} (f : A -> bool) (l : list A) :
  Forall (fun x => f x = true) l -> filter f l = l.
Proof.
  induction 1 as [ | x l Hx _ IH]; simpl; [reflexivity | ].
  rewrite Hx, IH. reflexivity.
Qed.

Lemma not_due_yet (l : list (string * nat)) :
  Forall (fun t => (1 < snd t)%nat) l ->
  filter due l = [] /\ filter (fun t => negb (due t)) l = l.
Proof.
  intro H. split; [apply filter_none | apply filter_all];
    (eapply Forall_impl; [ | exact H]); intros t Ht; unfold due;
    [ | apply negb_true_iff ]; apply Nat.leb_gt; exact Ht.
Qed.


(** Seconds during which no follow-up is due change nothing but the
    time left, and cannot block the loop. *)
Lemma quiet_seconds (w : world) (k : nat) :
  forall s,
    Forall (fun t => (k < snd t)%nat) (sleeping s) ->
    alive w s (repeat Second k) = true /\
    wire (run w s (repeat Second k)) = wire s /\
    messages (run w s (repeat Second k)) = messages s /\
    sleeping (run w s (repeat Second k)) =
      map (fun t => (fst t, snd t - k)%nat) (sleeping s).
Proof.
  induction k as [ | k IH]; intros s H; cbn [repeat].
  - cbn. repeat split. symmetry. erewrite map_ext; [apply map_id | ].
    intros [e n]. cbn. rewrite Nat.sub_0_r. reflexivity.
  - assert (Hq : Forall (fun t => (1 < snd t)%nat) (sleeping s)).
    { eapply Forall_impl; [ | exact H]. cbn. intros t Ht. lia. }
    destruct (not_due_yet Hq) as (Hd & Hn).
    assert (Hcalm : Forall (fun t => stuck w (fst t) = false)
                           (filter due (sleeping s))).
    { rewrite Hd. constructor. }
    destruct (@second_fields w s Hcalm) as (Hb & Hw & Hm).
    destruct (second_keeps w s) as (Hs & _).
    rewrite Hd in Hw, Hm. rewrite Hn in Hs. cbn [map flat_map] in Hw, Hm.
    rewrite app_nil_r in Hw, Hm.
    cbn [run alive step]. rewrite Hb. cbn [negb andb].
    destruct (IH (second w s)) as (IHa & IHw & IHm & IHs).
    + rewrite Hs. apply Forall_map. eapply Forall_impl; [ | exact H].
      cbn. intros t Ht. lia.
    + rewrite IHa, IHw, IHm, IHs, Hw, Hm, Hs, map_map. repeat split.
      apply map_ext. intros [e n]. cbn. f_equal. lia.
Qed.

(** X16.  A follow-up keeps quiet until its delay is over: during [k]
    seconds in which every sleeping follow-up has more than [k] seconds
    to go, no status check is sent and nothing is added to the chat
    context; each follow-up is just [k] seconds closer. *)
Theorem follow_ups_wait_their_delay
        (w : world) (s : session) (k : nat) :
  Forall (fun t => (k < snd t)%nat) (sleeping s) ->
  wire (run w s (repeat Second k)) = wire s /\
  messages (run w s (repeat Second k)) = messages s /\
  sleeping (run w s (repeat Second k)) =
    map (fun t => (fst t, snd t - k)%nat) (sleeping s).
Proof.
  intro H. destruct (@quiet_seconds w k s H) as (_ & Hw & Hm & Hs). auto.
Qed.

(** Nineteen seconds after a booking. *)
Lemma follow_ups_wait_their_delay_witness :
  let w := Sample.world_replying (Answers (mkResponse 200 (Some (JObject [])))) in
  let s := step w initial
             (FunctionCallsFinished
                [Sample.booking_call "a@b.com" (msg_booking_sent "a@b.com")]) in
  wire (run w s (repeat Second 19)) = wire s /\
  messages (run w s (repeat Second 19)) = messages s /\
  sleeping (run w s (repeat Second 19)) =
    map (fun t => (fst t, snd t - 19)%nat) (sleeping s).
Proof.
  intros w s.
  apply (@follow_ups_wait_their_delay w s 19).
  simpl. constructor; [simpl; lia | constructor].
Defined.


Lemma checks_after_second (w : world) (l : list (string * nat)) :
  map (Behaviour.check_of w) (map Behaviour.one_second_less l) =
  map (Behaviour.check_of w) l.
Proof.
  rewrite map_map. apply map_ext. intros [e n]. reflexivity.
Qed.




(** X18.  From the booking to the status check.  When a finished call
    with a non-empty [email] (and no [user_msg]) is reported to a
    session with no other follow-up asleep, nothing is sent during the
    next nineteen seconds; the twentieth second sends exactly one
    status check for that address, puts the status it returned (if it
    returned one) to the language model as a user message, and leaves
    no follow-up behind. *)
Theorem booking_is_followed_up_after_twenty_seconds
        (w : world) (s : session) (first : CalledFunction)
        (others : list CalledFunction) (email : string) :
  sleeping s = [] ->
  truthy (lookup "user_msg" (arguments (call_info first))) = false ->
  lookup "email" (arguments (call_info first)) = Some email ->
  email <> "" ->
  let scheduled := step w s (FunctionCallsFinished (first :: others)) in
  let final := run w scheduled (repeat Second 20) in
  wire (run w scheduled (repeat Second 19)) = wire s /\
  wire final = (wire s ++ [lookup_request w email])%list /\
  messages final = (messages s ++ Behaviour.said w email)%list /\
  sleeping final = [].
Proof.
  intros Hs Hmsg Hemail Hne scheduled final.
  assert (E : scheduled = create_task s (FollowUp email)).
  { unfold scheduled, step, on_function_calls_finished.
    rewrite Hmsg, Hemail. destruct email; [congruence | reflexivity]. }
  assert (Hsl : sleeping scheduled = [(email, 20%nat)]).
  { rewrite E. cbn [create_task sleeping]. rewrite Hs. reflexivity. }
  assert (Hw0 : wire scheduled = wire s) by (rewrite E; reflexivity).
  assert (Hm0 : messages scheduled = messages s) by (rewrite E; reflexivity).
  destruct (@quiet_seconds w 19 scheduled) as (Ha & Hw & Hm & Hsl19).
  { rewrite Hsl. constructor; [cbn; lia | constructor]. }
  rewrite Hsl in Hsl19. cbn [map fst snd Nat.sub] in Hsl19.
  split; [congruence | ].
  unfold final.
  change (repeat Second 20) with (Second :: repeat Second 19).
  rewrite repeat_cons.
  destruct (@run_app w (repeat Second 19) [Second] scheduled Ha) as (Hr & _).
  rewrite Hr, run_one. cbn [step].
  set (s19 := run w scheduled (repeat Second 19)) in *.
  destruct (second_keeps w s19) as (Hsf & _).
  rewrite Hsf, Hsl19.
  assert (Hlast : wire (second w s19) = (wire s19 ++ [lookup_request w email])%list
                  /\ messages (second w s19) =
                     (messages s19 ++ Behaviour.said w email)%list).
  { unfold second, second_outcome. rewrite Hsl19.
    cbn [filter due snd Nat.leb negb map wake_in_turn fst].
    destruct (wake_fields w (mkSession (messages s19) [] (connected s19)
                               (entrypoint_returned s19) (wire s19)) email)
      as (Hwk & _).
    assert (Hmk := wake_messages w (mkSession (messages s19) [] (connected s19)
                               (entrypoint_returned s19) (wire s19)) email).
    cbn [wire messages] in Hwk, Hmk.
    destruct (stuck w email); cbn [fst wire messages]; auto. }
  destruct Hlast as (Hwl & Hml).
  rewrite Hwl, Hml, Hw, Hm, Hw0, Hm0. repeat split; reflexivity.
Qed.

(** A booking for [a@b.com], the lookup answering with no contacts. *)
Lemma booking_is_followed_up_after_twenty_seconds_witness :
  let w := Sample.world_replying (Answers (mkResponse 200 (Some (JObject [])))) in
  let scheduled :=
    step w initial
      (FunctionCallsFinished
         [Sample.booking_call "a@b.com" (msg_booking_sent "a@b.com")]) in
  let final := run w scheduled (repeat Second 20) in
  wire (run w scheduled (repeat Second 19)) = wire initial /\
  wire final = (wire initial ++ [lookup_request w "a@b.com"])%list /\
  messages final = (messages initial ++ Behaviour.said w "a@b.com")%list /\
  sleeping final = [].
Proof.
  intro w.
  apply (@booking_is_followed_up_after_twenty_seconds w initial
           (Sample.booking_call "a@b.com" (msg_booking_sent "a@b.com"))
           [] "a@b.com").
  - reflexivity.
  - reflexivity.
  - reflexivity.
  - discriminate.
Defined.







(** X20.  One event [function_calls_finished] creates at most one
    task, and it is never an answer: either nothing is scheduled, or
    the handler returns normally and schedules one status check, for
    the non-empty [email] of the first call of the batch.  The calls
    after the first are never followed up. *)
Theorem handler_follows_up_the_first_call_only
        (called_functions : list CalledFunction) :
  snd (on_function_calls_finished called_functions) = [] \/
  exists first others email,
    called_functions = first :: others /\
    lookup "email" (arguments (call_info first)) = Some email /\
    email <> "" /\
    on_function_calls_finished called_functions =
      (Returns tt, [FollowUp email]).
Proof.
  destruct called_functions as [ | first others]; [left; reflexivity | ].
  unfold on_function_calls_finished.
  destruct (truthy (lookup "user_msg" (arguments (call_info first))));
    [left; reflexivity | ].
  destruct (lookup "email" (arguments (call_info first))) as [email | ] eqn:E;
    [ | left; reflexivity].
  destruct email as [ | c email]; [left; reflexivity | ].
  right. exists first, others, (String c email).
  repeat split; try assumption; try reflexivity. discriminate.
Qed.

Lemma non_empty_texts (texts : list string) :
  map Behaviour.user_message
      (filter (fun t => negb (String.eqb t "")) texts) =
  flat_map (fun t => match t with
                     | "" => []
                     | _ => [Behaviour.user_message t]
                     end) texts.
Proof.
  induction texts as [ | t texts IH]; [reflexivity | ].
  cbn [filter flat_map]. destruct t; cbn; rewrite IH; reflexivity.
Qed.

(** X22.  Chat messages are taken in the order they arrive: after a
    run of [message_received] events the chat context has grown by one
    user message for each non-empty text, in order; empty texts are
    dropped, no request is sent and no follow-up is scheduled. *)
Theorem chat_messages_are_taken_in_order
        (w : world) (texts : list string) (s : session) :
  let s' := run w s (map MessageReceived texts) in
  messages s' =
    (messages s ++ map Behaviour.user_message
                       (filter (fun t => negb (String.eqb t "")) texts))%list /\
  wire s' = wire s /\
  sleeping s' = sleeping s.
Proof.
  rewrite non_empty_texts.
  revert s. induction texts as [ | t texts IH]; intro s; cbn zeta.
  - cbn. rewrite app_nil_r. auto.
  - change (run w s (map MessageReceived (t :: texts)))
      with (run w (step w s (MessageReceived t)) (map MessageReceived texts)).
    destruct (IH (step w s (MessageReceived t))) as (Hm & Hw & Hs).
    rewrite Hm, Hw, Hs. cbn [flat_map].
    destruct t; cbn [step on_message_received truthy fold_left create_task
                     answer messages wire sleeping];
      [ | rewrite <- app_assoc]; auto.
Qed.

(* ================================================================== *)
(** * Waiting and configuration                                         *)
(* ================================================================== *)

(** X23.  A tool invocation fails to complete in one case only: it has
    sent its request and the server never answers.  Whenever the
    request is answered, or fails, the tool returns or raises; a
    booking rejected by the address check always returns. *)
Theorem tools_wait_only_for_a_silent_server
        (str : json -> string) (i : Tools.invocation) (w : world) :
  fst (Tools.execute str i w) = Hangs <->
  snd (Tools.execute str i w) = [Behaviour.request_of w i] /\
  network w (Behaviour.request_of w i) = Silent.
Proof.
  destruct i as [email name | email slot | email name | email];
    cbn [Tools.execute Behaviour.request_of].
  - rewrite save_candidate_details_runs. cbn [fst snd].
    destruct (network w _) as [r | | ].
    + split; [ | intros (_ & H); discriminate H].
      destruct (is_error_status r); [discriminate | ].
      destruct (decoded r) as [body | ]; [ | discriminate].
      intro H. exfalso. exact (candidate_reply_ends str body H).
    + split; [discriminate | intros (_ & H); discriminate H].
    + split; auto.
  - rewrite schedule_interview_runs. cbn [fst snd].
    destruct (network w _) as [r | | ].
    + split; [ | intros (_ & H); discriminate H].
      destruct (is_error_status r); discriminate.
    + split; [discriminate | intros (_ & H); discriminate H].
    + split; auto.
  - rewrite book_appointment_runs.
    destruct (re_match email_pattern email); cbn [fst snd].
    + destruct (network w _) as [r | | ].
      * split; [ | intros (_ & H); discriminate H].
        destruct (is_error_status r); discriminate.
      * split; [discriminate | intros (_ & H); discriminate H].
      * split; auto.
    + split; [discriminate | intros (H & _); discriminate H].
  - rewrite check_appointment_status_runs. cbn [fst snd].
    destruct (network w _) as [r | | ].
    + split; [ | intros (_ & H); discriminate H].
      destruct (is_error_status r); [discriminate | ].
      destruct (decoded r) as [body | ]; [ | discriminate].
      intro H. exfalso. exact (classify_ends body H).
    + split; [discriminate | intros (_ & H); discriminate H].
    + split; auto.
Qed.

(** X24.  The tools never check their configuration: when the
    environment variable that holds the endpoint of a tool is unset,
    the request is still sent, to the URL that starts with the text
    [None] (what an f-string makes of [None]). *)
Theorem unset_endpoint_is_sent_as_None
        (str : json -> string) (i : Tools.invocation) (w : world)
        (req : request) :
  getenv w (Behaviour.endpoint_variable i) = None ->
  In req (snd (Tools.execute str i w)) ->
  exists rest, url req = "None" ++ rest.
Proof.
  intro Henv.
  destruct i as [email name | email slot | email name | email];
    cbn [Tools.execute Behaviour.endpoint_variable] in *.
  - rewrite save_candidate_details_runs. cbn [snd]. intros [<- | []].
    exists "". cbn [url candidate_request]. rewrite Henv. reflexivity.
  - rewrite schedule_interview_runs. cbn [snd]. intros [<- | []].
    exists "". cbn [url interview_request]. rewrite Henv. reflexivity.
  - rewrite book_appointment_runs.
    destruct (re_match email_pattern email); cbn [snd]; [ | intros [] ].
    intros [<- | []].
    exists "". cbn [url webhook_request]. rewrite Henv. reflexivity.
  - rewrite check_appointment_status_runs. cbn [snd]. intros [<- | []].
    exists ("?email=" ++ email). cbn [url lookup_request]. rewrite Henv.
    reflexivity.
Qed.

(** The status check in a process with an empty environment. *)
Lemma unset_endpoint_is_sent_as_None_witness :
  let w := mkWorld (fun _ => None) (fun _ => Fails) in
  exists rest, url (lookup_request w "a@b.com") = "None" ++ rest.
Proof.
  intro w.
  apply (@unset_endpoint_is_sent_as_None Sample.str
           (Tools.CheckAppointmentStatus "a@b.com") w
           (lookup_request w "a@b.com")).
  - reflexivity.
  - simpl. left. reflexivity.
Defined.
